(** * MQBench: quantizer rule sets, registry, and the ImageNet driver

    A shallow embedding of
      - [mqbench/custom_quantizer/nlp_quantizer.py] (the two rule accessors
        of [AcademicNLPQuantizer] and its registration), and
      - [application/imagenet_example/main_a.py] (the checkpoint-resume,
        calibration, deploy and evaluate paths of [main_worker],
        [save_checkpoint], [AverageMeter] and [validate]; the epoch loop,
        the launch of the workers by [main], [accuracy] and
        [adjust_learning_rate]).

    Python dictionaries whose order is observable ([state_dict]) are
    association lists; the others are [gmap]s.  Exceptions are values of
    [exn]; effectful code runs in a state-and-exception monad. *)

From Stdlib Require Import ZArith QArith Qpower List String Ascii Bool Lia Lqa.
From stdpp Require Import base option list gmap strings pretty.

Local Open Scope string_scope.
Local Open Scope list_scope.

(* ================================================================== *)
(** * Python exceptions *)

Inductive exn : Type :=
| IndexError
| KeyError (k : string)
| TypeError
| ValueError
| AttributeError
| ZeroDivisionError
| FileNotFoundError (path : string)
| FileExistsError (path : string)
| UnknownFamilyError (family : string)
| ExternalError (what : string).

Inductive result (A : Type) : Type :=
| Ok (a : A)
| Raise (e : exn).
Arguments Ok {A} a.
Arguments Raise {A} e.

(* ================================================================== *)
(** * nlp_quantizer.py *)

Module Quantizer.

(** Operator kinds (Python callables such as [torch.matmul]). *)
Inductive FunctionType : Type :=
| torch_matmul
| other_function (name : string).

(** Layer kinds (Python classes such as
    [torch.nn.qat.modules.linear.Linear]). *)
Inductive ModuleType : Type :=
| qat_Linear
| other_module (name : string).

#[global] Instance FunctionType_eq_dec : EqDecision FunctionType.
Proof. solve_decision. Defined.
#[global] Instance ModuleType_eq_dec : EqDecision ModuleType.
Proof. solve_decision. Defined.

(** The [extra_quantizer_dict] handed to the constructor.  An absent key
    is [None]. *)
Record extra_quantizer_dict : Type := {
  cfg_additional_function_type : option (list FunctionType);
  cfg_additional_module_type : option (list ModuleType)
}.

(** An [AcademicNLPQuantizer] instance.  [additional_function_type] is a
    Python list and [additional_module_type] a Python tuple (the
    properties are annotated [-> list] and [-> tuple], and [+] is only
    defined between sequences of the same kind); both are Rocq lists. *)
Record AcademicNLPQuantizer : Type := {
  additional_function_type : list FunctionType;
  additional_module_type : list ModuleType
}.

(** Modelled from the spec: the constructor of the base class
    [ModelQuantizer] of mqbench/custom_quantizer, whose source is not
    available.  Section 4.2: the extensions are "supplied via the
    variant's configuration at construction time (empty by default)". *)
Definition new_quantizer (cfg : extra_quantizer_dict) : AcademicNLPQuantizer :=
  {| additional_function_type := default [] (cfg_additional_function_type cfg);
     additional_module_type := default [] (cfg_additional_module_type cfg) |}.

(** [function_type_to_quant_input], lines 15-20. *)
Definition function_type_to_quant_input (self : AcademicNLPQuantizer)
  : list FunctionType :=
  [ (* Matmul in MSA *) torch_matmul ] ++ additional_function_type self.

(** [module_type_to_quant_input], lines 22-27. *)
Definition module_type_to_quant_input (self : AcademicNLPQuantizer)
  : list ModuleType :=
  [ (* Linear *) qat_Linear ] ++ additional_module_type self.

End Quantizer.

(* ================================================================== *)
(** * The quantizer registry *)

Module Registry.

(** Quantizer classes that can be registered. *)
Inductive QuantizerClass : Type :=
| AcademicNLPQuantizer_class
| other_class (name : string).

#[global] Instance QuantizerClass_eq_dec : EqDecision QuantizerClass.
Proof. solve_decision. Defined.

(** The process-wide table from architecture family to quantizer class. *)
Abbreviation table := (gmap string QuantizerClass).

(** Modelled from the spec: [register] of mqbench/utils/registry.py,
    whose source is not available.  Section 4.1: "[register(family_name,
    quantizer_class)] records or overwrites the mapping". *)
Definition register (family : string) (cls : QuantizerClass) (t : table)
  : table :=
  <[family := cls]> t.

(** Modelled from the spec: [resolve] of the registry.  Section 4.1:
    "[resolve(family_name) -> quantizer_class] fails with
    [UnknownFamilyError] if absent". *)
Definition resolve (family : string) (t : table) : result QuantizerClass :=
  match t !! family with
  | Some cls => Ok cls
  | None => Raise (UnknownFamilyError family)
  end.

(** Modelled from the spec: [register_model_quantizer(family)] used as a
    class decorator.  It records the class under [family] and hands the
    class back, so that decorators can be stacked. *)
Definition register_model_quantizer (family : string)
    (cls : QuantizerClass) (t : table) : QuantizerClass * table :=
  (cls, register family cls t).

(** Loading nlp_quantizer.py, lines 6-8.  Python applies stacked
    decorators bottom-up: first ['Transformer'], then ['CNN'], the second
    one to what the first returned. *)
Definition load_nlp_quantizer (t : table) : QuantizerClass * table :=
  let '(cls1, t1) :=
    register_model_quantizer "Transformer" AcademicNLPQuantizer_class t in
  register_model_quantizer "CNN" cls1 t1.

End Registry.

(* ================================================================== *)
(** * Python string and path operations used by the driver *)

Module PyStr.

(** [s.startswith(p)] *)
Fixpoint startswith (p s : string) : bool :=
  match p, s with
  | EmptyString, _ => true
  | String a p', String b s' => if Ascii.eqb a b then startswith p' s' else false
  | String _ _, EmptyString => false
  end.

(** [p in s] for strings: [p] occurs somewhere in [s]. *)
Fixpoint contains (p s : string) : bool :=
  startswith p s ||
  match s with
  | EmptyString => false
  | String _ s' => contains p s'
  end.

(** The slice [s[n:]]; past the end it is the empty string. *)
Fixpoint slice_from (n : nat) (s : string) : string :=
  match n, s with
  | O, _ => s
  | S n', String _ s' => slice_from n' s'
  | S _, EmptyString => EmptyString
  end.

(** [s.endswith("/")] *)
Fixpoint endswith_sep (s : string) : bool :=
  match s with
  | EmptyString => false
  | String c EmptyString => Ascii.eqb c "/"
  | String _ s' => endswith_sep s'
  end.

(** [s.replace(old, new)] for a non-empty [old]: the occurrences of [old]
    are found left to right and do not overlap.  [skip] counts the
    characters of a match just replaced that are still to be dropped. *)
Fixpoint replace_from (old new : string) (skip : nat) (s : string) : string :=
  match s with
  | EmptyString => EmptyString
  | String c s' =>
      match skip with
      | S k => replace_from old new k s'
      | O =>
          if startswith old s
          then new ++ replace_from old new (String.length old - 1) s'
          else String c (replace_from old new 0 s')
      end
  end.

(** [s.replace("", new)] puts [new] before every character and at the
    end. *)
Fixpoint intersperse (new s : string) : string :=
  match s with
  | EmptyString => new
  | String c s' => new ++ String c (intersperse new s')
  end.

Definition replace (old new s : string) : string :=
  match old with
  | EmptyString => intersperse new s
  | String _ _ => replace_from old new 0 s
  end.

(** [os.path.join(a, b)] of posixpath for two components. *)
Definition path_join (a b : string) : string :=
  if startswith "/" b then b
  else if (String.eqb a "" || endswith_sep a)%bool then a ++ b
  else a ++ "/" ++ b.

(** [c in s] for a single character. *)
Fixpoint has_char (c : ascii) (s : string) : bool :=
  match s with
  | EmptyString => false
  | String d s' => Ascii.eqb c d || has_char c s'
  end.

(** [s.count(c)] for a single character. *)
Fixpoint count_char (c : ascii) (s : string) : nat :=
  match s with
  | EmptyString => 0
  | String d s' => (if Ascii.eqb c d then 1 else 0) + count_char c s'
  end.

End PyStr.

(* ================================================================== *)
(** * AverageMeter (main_a.py, lines 510-531) *)

Module Meter.

Section AverageMeter.
(** The meter is duck-typed over the number type of the values it is
    fed (Python floats, one-element tensors); counts are integers.  The
    arithmetic is that of the value type, whatever it is. *)
Context {num : Type}.
Variable zero : num.              (* the literal [0] *)
Variable add : num -> num -> num. (* [x + y] *)
Variable mul : num -> Z -> num.   (* [val * n] *)
Variable div : num -> Z -> num.   (* [sum / count] *)

Record AverageMeter : Type := {
  val : num;
  avg : num;
  sum : num;
  count : Z
}.

(** [reset], lines 517-521 *)
Definition reset : AverageMeter :=
  {| val := zero; avg := zero; sum := zero; count := 0 |}.

(** [update], lines 523-527.  The object is mutated field by field, so
    when the division raises the first three assignments have already
    happened. *)
Definition update (self : AverageMeter) (v : num) (n : Z)
  : result unit * AverageMeter :=
  let sum' := add (sum self) (mul v n) in
  let count' := (count self + n)%Z in
  if (count' =? 0)%Z
  then (Raise ZeroDivisionError,
        {| val := v; avg := avg self; sum := sum'; count := count' |})
  else (Ok tt,
        {| val := v; avg := div sum' count'; sum := sum'; count := count' |}).

(** A sequence of [update] calls on one meter, stopping at the first
    exception. *)
Fixpoint updates (self : AverageMeter) (calls : list (num * Z))
  : result unit * AverageMeter :=
  match calls with
  | [] => (Ok tt, self)
  | (v, n) :: rest =>
      match update self v n with
      | (Ok _, self') => updates self' rest
      | (Raise e, self') => (Raise e, self')
      end
  end.

(** What one batch of [validate] measures: the loss, the top-1 and
    top-5 accuracies ([loss.item()], [acc1[0]], [acc5[0]]) and the batch
    size [images.size(0)]. *)
Record batch_result : Type := {
  b_loss : num;
  b_acc1 : num;
  b_acc5 : num;
  b_size : Z
}.

(** The meters of [validate], lines 453-455. *)
Record val_meters : Type := {
  losses : AverageMeter;
  top1 : AverageMeter;
  top5 : AverageMeter
}.

(** One round of the loop of [validate], lines 477-480, on what the
    batch measured.  Line 477 comes first: [accuracy] divides [100.0] by
    the batch size (line 570), so on an empty batch it raises before any
    meter is updated.  [batch_time] (wall-clock time) and the progress
    display are left out. *)
Definition validate_step (m : val_meters) (b : batch_result)
  : result unit * val_meters :=
  if (b_size b =? 0)%Z then (Raise ZeroDivisionError, m) else
  match update (losses m) (b_loss b) (b_size b) with
  | (Raise e, l') =>
      (Raise e, {| losses := l'; top1 := top1 m; top5 := top5 m |})
  | (Ok _, l') =>
      match update (top1 m) (b_acc1 b) (b_size b) with
      | (Raise e, t1') =>
          (Raise e, {| losses := l'; top1 := t1'; top5 := top5 m |})
      | (Ok _, t1') =>
          match update (top5 m) (b_acc5 b) (b_size b) with
          | (Raise e, t5') =>
              (Raise e, {| losses := l'; top1 := t1'; top5 := t5' |})
          | (Ok _, t5') =>
              (Ok tt, {| losses := l'; top1 := t1'; top5 := t5' |})
          end
      end
  end.

(** The meters over all batches, lines 466-487. *)
Fixpoint validate_loop (m : val_meters) (batches : list batch_result)
  : result unit * val_meters :=
  match batches with
  | [] => (Ok tt, m)
  | b :: rest =>
      match validate_step m b with
      | (Ok _, m') => validate_loop m' rest
      | (Raise e, m') => (Raise e, m')
      end
  end.

(** The value [validate] returns, line 492: [top1.avg]. *)
Definition validate_meters (batches : list batch_result) : result num :=
  match validate_loop
          {| losses := reset; top1 := reset; top5 := reset |} batches with
  | (Ok _, m) => Ok (avg (top1 m))
  | (Raise e, _) => Raise e
  end.

(** The sums the invariant speaks of, taken in call order. *)
Definition total_count (calls : list (num * Z)) : Z :=
  fold_left (fun acc c => (acc + snd c)%Z) calls 0%Z.

Definition weighted_sum (calls : list (num * Z)) : num :=
  fold_left (fun acc c => add acc (mul (fst c) (snd c))) calls zero.

Definition last_val (calls : list (num * Z)) : num :=
  List.last (List.map fst calls) zero.

(** A meter on which [avg] is up to date. *)
Definition settled (m : AverageMeter) : Prop :=
  avg m = div (sum m) (count m) /\ (0 < count m)%Z.

(** The [update] calls that [validate] makes on [top1]. *)
Definition top1_calls (batches : list batch_result) : list (num * Z) :=
  List.map (fun b => (b_acc1 b, b_size b)) batches.

End AverageMeter.

Arguments AverageMeter : clear implicits.
Arguments batch_result : clear implicits.
Arguments val_meters : clear implicits.

End Meter.

(* ================================================================== *)
(** * The driver, main_a.py *)

Module Driver.
Import PyStr.

(** ** Data *)

(** Tensors are opaque; an integer names one. *)
Definition Tensor : Type := Z.

(** A [state_dict] is an [OrderedDict]: the driver looks at its first
    key, so the order is kept. *)
Abbreviation state_dict := (list (string * Tensor)).

(** The values the driver stores in checkpoint dictionaries. *)
Inductive pyval : Type :=
| PInt (z : Z)
| PNum (q : Q)
| PStr (s : string)
| PStateDict (d : state_dict)
| POptimizer (o : Z).

(** Modelled from the spec: the mode flag and the statistics of a
    fake-quantization node (section 3, "Fake-Quant Node"); the node class
    lives in mqbench and its source is not available.  [observed] counts
    the batches whose statistics the node has accumulated. *)
Inductive Mode : Type := disabled | calibrating | quantized.

Record FakeQuantNode : Type := {
  mode : Mode;
  observed : nat
}.

#[global] Instance Mode_eq_dec : EqDecision Mode.
Proof. solve_decision. Defined.

(** The instrumented model, as far as the driver can tell states apart. *)
Record Model : Type := {
  training : bool;          (* [model.training]: [train()] / [eval()] *)
  nodes : list FakeQuantNode;
  params : state_dict;      (* what [model.state_dict()] returns *)
  bn_merged : bool;         (* [convert_merge_bn] has run *)
  on_cpu : bool;            (* [model.to(torch.device('cpu'))] has run *)
  epochs_trained : nat
}.

(** Graphs of the [rbcompiler] API are opaque as well. *)
Definition SG : Type := Z.
Abbreviation ClipRanges := (list (string * (Q * Q))).
Abbreviation QConfig := (list (string * list (string * list (string * bool)))).

Inductive FileData : Type :=
| TorchFile (obj : gmap string pyval)
| SgFile (sg : SG)
| JsonFile (clip : ClipRanges)
| OtherFile.

Record FS : Type := {
  dirs : gset string;
  files : gmap string FileData
}.

(** The calls the driver makes into mqbench, torch and rbcompiler. *)
Inductive event : Type :=
| EvEnableCalibration
| EvForward (batch : Z)
| EvEnableQuantization (before : list FakeQuantNode)
| EvConvertMergeBn (m : Model)
| EvLoadStateDict (d : state_dict)
| EvLoadOptimizer (o : Z)
| EvGenSg (m : Model) (clip_range_file ir_graph : string)
| EvSaveSg (sg : SG) (path : string)
| EvGenQuantSg (sg : SG) (clip : ClipRanges) (qconfig : QConfig)
| EvTrain (epoch : Z)
| EvValidate (m : Model)
| EvSaveCheckpoint (arch : string) (is_best : bool).

(** The command line, as far as lines 267-362 read it. *)
Record Args : Type := {
  arch : string;
  resume : string;
  quant : bool;       (* [not args.not_quant], line 107 *)
  deploy : bool;
  evaluate : bool;
  epochs : Z
}.

Record State : Type := {
  model : Model;
  fs : FS;
  start_epoch : pyval;  (* [args.start_epoch] *)
  best_acc1 : pyval;    (* the global [best_acc1] *)
  optimizer : Z;      (* the optimizer's state, opaque *)
  trace : list event
}.

(** What the driver does not decide itself: the data, the numerics and
    whether a call into an external library goes through.  The random
    input of line 315 is part of what [gen_sg_from_pytorch] stands for. *)
Record Env : Type := {
  cali_loader : list Z;
  train_loader : list Z;
  val_outputs : Model -> list (Meter.batch_result Q);
  trained_params : Model -> Z -> state_dict;
  load_state_dict_status : Model -> state_dict -> result unit;
  load_optimizer_status : Z -> result unit;
  gen_sg_from_pytorch : Model -> result (SG * ClipRanges);
  gen_quant_sg_from_clip_ranges : SG -> ClipRanges -> QConfig -> result SG;
  save_sg_status : SG -> string -> result unit;
  format_2f : Q -> string;    (* ['{:.2f}'.format(x)] *)
  str_float : Q -> string     (* ['{}'.format(x)] for a float *)
}.

(** ** Record updates *)

Definition set_training (b : bool) (m : Model) : Model :=
  {| training := b; nodes := nodes m; params := params m;
     bn_merged := bn_merged m; on_cpu := on_cpu m;
     epochs_trained := epochs_trained m |}.

Definition set_nodes (ns : list FakeQuantNode) (m : Model) : Model :=
  {| training := training m; nodes := ns; params := params m;
     bn_merged := bn_merged m; on_cpu := on_cpu m;
     epochs_trained := epochs_trained m |}.

Definition set_params (p : state_dict) (m : Model) : Model :=
  {| training := training m; nodes := nodes m; params := p;
     bn_merged := bn_merged m; on_cpu := on_cpu m;
     epochs_trained := epochs_trained m |}.

Definition set_bn_merged (m : Model) : Model :=
  {| training := training m; nodes := nodes m; params := params m;
     bn_merged := true; on_cpu := on_cpu m;
     epochs_trained := epochs_trained m |}.

Definition set_on_cpu (m : Model) : Model :=
  {| training := training m; nodes := nodes m; params := params m;
     bn_merged := bn_merged m; on_cpu := true;
     epochs_trained := epochs_trained m |}.

Definition set_epochs_trained (n : nat) (m : Model) : Model :=
  {| training := training m; nodes := nodes m; params := params m;
     bn_merged := bn_merged m; on_cpu := on_cpu m;
     epochs_trained := n |}.

Definition with_model (f : Model -> Model) (s : State) : State :=
  {| model := f (model s); fs := fs s; start_epoch := start_epoch s;
     best_acc1 := best_acc1 s; optimizer := optimizer s; trace := trace s |}.

Definition with_fs (f : FS -> FS) (s : State) : State :=
  {| model := model s; fs := f (fs s); start_epoch := start_epoch s;
     best_acc1 := best_acc1 s; optimizer := optimizer s; trace := trace s |}.

Definition set_start_epoch (e : pyval) (s : State) : State :=
  {| model := model s; fs := fs s; start_epoch := e;
     best_acc1 := best_acc1 s; optimizer := optimizer s; trace := trace s |}.

Definition set_best_acc1 (q : pyval) (s : State) : State :=
  {| model := model s; fs := fs s; start_epoch := start_epoch s;
     best_acc1 := q; optimizer := optimizer s; trace := trace s |}.

Definition set_optimizer (o : Z) (s : State) : State :=
  {| model := model s; fs := fs s; start_epoch := start_epoch s;
     best_acc1 := best_acc1 s; optimizer := o; trace := trace s |}.

Definition log (e : event) (s : State) : State :=
  {| model := model s; fs := fs s; start_epoch := start_epoch s;
     best_acc1 := best_acc1 s; optimizer := optimizer s;
     trace := trace s ++ [e] |}.

(** A write that goes through: the file at [path] is created or replaced.
    Writes that the operating system refuses (a missing or read-only
    directory, a [path] that is a directory) are left out. *)
Definition write_file (path : string) (d : FileData) (f : FS) : FS :=
  {| dirs := dirs f; files := <[path := d]> (files f) |}.

Definition add_dir (path : string) (f : FS) : FS :=
  {| dirs := {[path]} ∪ dirs f; files := files f |}.

(** ** The state-and-exception monad *)

(** A computation over a mutable state [S] that returns an [A] or raises;
    the state reached is kept in both cases. *)
Definition ST (S A : Type) : Type := S -> result A * S.

#[global] Instance ST_ret {S} : MRet (ST S) := fun A a s => (Ok a, s).

#[global] Instance ST_bind {S} : MBind (ST S) := fun A B f m s =>
  match m s with
  | (Ok a, s') => f a s'
  | (Raise e, s') => (Raise e, s')
  end.

Definition raise {S A} (e : exn) : ST S A := fun s => (Raise e, s).
Definition get {S} : ST S S := fun s => (Ok s, s).
Definition modify {S} (f : S -> S) : ST S unit := fun s => (Ok tt, f s).
Definition lift {S A} (r : result A) : ST S A := fun s => (r, s).

(** [for x in xs: body(x)] *)
Fixpoint for_each {S A} (xs : list A) (body : A -> ST S unit) : ST S unit :=
  match xs with
  | [] => mret tt
  | x :: rest => body x ;; for_each rest body
  end.

Abbreviation M := (ST State).

(** ** Ordered dictionaries *)

(** [list(d.keys())[0]] *)
Definition first_key (d : state_dict) : result string :=
  match d with
  | [] => Raise IndexError
  | (k, _) :: _ => Ok k
  end.

(** [d.pop(k)]: the value under [k] and the dictionary without it. *)
Fixpoint od_pop (k : string) (d : state_dict) : result (Tensor * state_dict) :=
  match d with
  | [] => Raise (KeyError k)
  | (k', v) :: d' =>
      if String.eqb k k' then Ok (v, d')
      else match od_pop k d' with
           | Ok (x, r) => Ok (x, (k', v) :: r)
           | Raise e => Raise e
           end
  end.

(** [d[k] = v]: an existing key keeps its place, a new one goes last. *)
Fixpoint od_set (k : string) (v : Tensor) (d : state_dict) : state_dict :=
  match d with
  | [] => [(k, v)]
  | (k', v') :: d' =>
      if String.eqb k k' then (k, v) :: d' else (k', v') :: od_set k v d'
  end.

(** ** Stripping the [module.] prefix, lines 285-287 *)

(** The loop [for k in list(state_dict.keys()): state_dict[k[7:]] =
    state_dict.pop(k)], over the snapshot [ks] of the keys. *)
Fixpoint strip_keys (ks : list string) (d : state_dict) : result state_dict :=
  match ks with
  | [] => Ok d
  | k :: ks' =>
      match od_pop k d with
      | Raise e => Raise e
      | Ok (v, d') => strip_keys ks' (od_set (slice_from 7 k) v d')
      end
  end.

(** The test of line 285; [and] evaluates its right operand only when the
    left one holds. *)
Definition needs_strip (sd md : state_dict) : result bool :=
  match first_key sd with
  | Raise e => Raise e
  | Ok k0 =>
      if contains "module." k0 then
        match first_key md with
        | Raise e => Raise e
        | Ok m0 => Ok (negb (contains "module." m0))
        end
      else Ok false
  end.

(** Lines 285-287: the dictionary as it is after the conditional. *)
Definition strip_module_prefix (sd md : state_dict) : result state_dict :=
  match needs_strip sd md with
  | Raise e => Raise e
  | Ok true => strip_keys (List.map fst sd) sd
  | Ok false => Ok sd
  end.

(** What the renaming is meant to do to one entry. *)
Definition strip_entry (kv : string * Tensor) : string * Tensor :=
  (slice_from 7 (fst kv), snd kv).

(** No key, once stripped, is a key that is still waiting to be renamed. *)
Fixpoint pending_clash_free (ks : list string) : Prop :=
  match ks with
  | [] => True
  | k :: rest => (slice_from 7 k ∉ rest) ∧ pending_clash_free rest
  end.

(** The keys can be renamed in place one after the other: the stripped
    keys are pairwise distinct and none of them meets a pending key. *)
Definition rename_safe (ks : list string) : Prop :=
  NoDup (slice_from 7 <$> ks) ∧ pending_clash_free ks.

#[global] Instance pending_clash_free_dec ks : Decision (pending_clash_free ks).
Proof. induction ks; cbn; apply _. Defined.

#[global] Instance rename_safe_dec ks : Decision (rename_safe ks).
Proof. unfold rename_safe. apply _. Defined.

(** ** File system *)

(** [os.path.isdir(p)] *)
Definition isdir (p : string) (f : FS) : bool := bool_decide (p ∈ dirs f).

(** [os.path.isfile(p)] *)
Definition isfile (p : string) (f : FS) : bool :=
  bool_decide (is_Some (files f !! p)).

(** [os.mkdir(p)] for a [p] directly under the working directory, as an
    architecture name is: a missing parent directory and the failures of
    the operating system (permissions, a full disk) are left out. *)
Definition mkdir (p : string) (f : FS) : result FS :=
  if String.eqb p "" then Raise (FileNotFoundError p)
  else if (isdir p f || isfile p f)%bool then Raise (FileExistsError p)
  else Ok (add_dir p f).

(** [shutil.copyfile(src, dst)] into a writable directory.  A [dst] that
    is a directory or cannot be written, which make the call raise after
    the source has been read, are left out. *)
Definition copyfile (src dst : string) (f : FS) : result FS :=
  if String.eqb src dst then Raise (ExternalError "SameFileError")
  else match files f !! src with
       | None => Raise (FileNotFoundError src)
       | Some d => Ok (write_file dst d f)
       end.

Section WithEnv.
Variable env : Env.

(** ** save_checkpoint, lines 494-507 *)

(** [x - 1] *)
Definition minus_one (x : pyval) : result pyval :=
  match x with
  | PInt z => Ok (PInt (z - 1))
  | PNum q => Ok (PNum (q - 1))
  | _ => Raise TypeError
  end.

(** ['{:.2f}'.format(x)] *)
Definition fmt_2f (x : pyval) : result string :=
  match x with
  | PInt z => Ok (format_2f env (inject_Z z))
  | PNum q => Ok (format_2f env q)
  | PStr _ => Raise ValueError
  | _ => Raise TypeError
  end.

(** ['{}'.format(x)] for a number *)
Definition fmt_num (x : pyval) : result string :=
  match x with
  | PInt z => Ok (pretty z)
  | PNum q => Ok (str_float env q)
  | _ => Raise TypeError
  end.

(** The state of [save_checkpoint]: the caller's [state] mapping, which
    the function mutates, and the file system. *)
Abbreviation SC := (ST (gmap string pyval * FS)).

Definition sc_getitem (k : string) : SC pyval :=
  s ← get;
  match fst s !! k with
  | Some v => mret v
  | None => raise (KeyError k)
  end.

(** [state.pop(k)] *)
Definition sc_pop (k : string) : SC pyval :=
  v ← sc_getitem k;
  modify (fun s => (delete k (fst s), snd s)) ;;
  mret v.

Definition sc_fs {A} (op : FS -> result A) : SC A :=
  s ← get; lift (op (snd s)).

Definition sc_set_fs (f : FS) : SC unit :=
  modify (fun s => (fst s, f)).

Definition checkpoint_name (model_name acc epoch : string) : string :=
  model_name ++ "_acc_" ++ acc ++ "_epoch_" ++ epoch ++ ".pth.tar".

(** Lines 496-497: [if not os.path.isdir(d): os.mkdir(d)] *)
Definition ensure_dir (d : string) : SC unit :=
  s ← get;
  if isdir d (snd s) then mret tt
  else f' ← sc_fs (mkdir d); sc_set_fs f'.

Definition save_checkpoint (is_best : bool) : SC unit :=
  arch_v ← sc_getitem "arch";
  match arch_v with
  | PStr model_name =>
      ensure_dir model_name ;;
      cur_acc ← sc_pop "cur_acc";
      epoch_v ← sc_getitem "epoch";
      cur_epoch ← lift (minus_one epoch_v);
      acc_s ← lift (fmt_2f cur_acc);
      epoch_s ← lift (fmt_num cur_epoch);
      let filename := checkpoint_name model_name acc_s epoch_s in
      let filename := path_join model_name filename in
      (* torch.save(state, filename), taken as going through *)
      s ← get;
      sc_set_fs (write_file filename (TorchFile (fst s)) (snd s)) ;;
      if is_best then
        let best_f := path_join model_name "model_best.pth.tar" in
        f' ← sc_fs (copyfile filename best_f); sc_set_fs f'
      else mret tt
  | _ => raise TypeError
  end.

End WithEnv.

(** ** The mode controller *)

Definition set_mode (md : Mode) (n : FakeQuantNode) : FakeQuantNode :=
  {| mode := md; observed := observed n |}.

(** Modelled from the spec: [enable_calibration] of
    mqbench/utils/state.py, whose source is not available.  Section 4.4:
    the transition [disabled -> calibrating], applied to every
    fake-quantization node of the graph at once. *)
Definition enable_calibration_nodes (ns : list FakeQuantNode)
  : list FakeQuantNode :=
  List.map (set_mode calibrating) ns.

(** Modelled from the spec: [enable_quantization] of
    mqbench/utils/state.py, whose source is not available.  Section 4.4:
    the transition to [quantized], applied to every node at once; "if no
    batches were observed, proceeds with degenerate/default statistics
    rather than failing": it never raises and leaves the statistics as
    they are. *)
Definition enable_quantization_nodes (ns : list FakeQuantNode)
  : result (list FakeQuantNode) :=
  Ok (List.map (set_mode quantized) ns).

(** Modelled from the spec: what a forward pass does to a node.  Section
    4.4: a calibrating node "accumulates statistics into its own state";
    the other modes record nothing. *)
Definition observe (n : FakeQuantNode) : FakeQuantNode :=
  match mode n with
  | calibrating => {| mode := calibrating; observed := S (observed n) |}
  | _ => n
  end.

Section Worker.
Variable env : Env.
Variable args : Args.

(** [model.eval()] and [model.train()] *)
Definition model_eval : M unit := modify (with_model (set_training false)).
Definition model_train : M unit := modify (with_model (set_training true)).

(** [enable_calibration(model)], line 296. *)
Definition enable_calibration : M unit :=
  modify (log EvEnableCalibration) ;;
  modify (with_model (fun m =>
    set_nodes (enable_calibration_nodes (nodes m)) m)).

(** [enable_quantization(model)], line 302.  The event keeps the nodes
    as they are when the call is made. *)
Definition enable_quantization : M unit :=
  s ← get;
  modify (log (EvEnableQuantization (nodes (model s)))) ;;
  ns ← lift (enable_quantization_nodes (nodes (model s)));
  modify (with_model (set_nodes ns)).

(** [model(images)] *)
Definition forward (batch : Z) : M unit :=
  modify (log (EvForward batch)) ;;
  modify (with_model (fun m => set_nodes (List.map observe (nodes m)) m)).

(** Modelled from the spec: [convert_merge_bn] of mqbench/convert_deploy,
    whose source is not available.  Section 4.5: "fold batch-norm
    parameters into preceding convolution weights".  The event keeps
    the model as it is when the folding starts. *)
Definition convert_merge_bn : M unit :=
  s ← get;
  modify (log (EvConvertMergeBn (model s))) ;;
  modify (with_model set_bn_merged).

(** [calibrate], lines 388-399. *)
Definition calibrate : M unit :=
  model_eval ;;
  for_each (cali_loader env) forward.

(** ** Resuming from a checkpoint, lines 268-294 *)

(** [torch.load(path)] *)
Definition torch_load (path : string) : M (gmap string pyval) :=
  s ← get;
  match files (fs s) !! path with
  | Some (TorchFile obj) => mret obj
  | Some _ => raise (ExternalError "UnpicklingError")
  | None => raise (FileNotFoundError path)
  end.

(** [d[k]] *)
Definition getitem (d : gmap string pyval) (k : string) : M pyval :=
  match d !! k with
  | Some v => mret v
  | None => raise (KeyError k)
  end.

(** [model.load_state_dict(d)] *)
Definition load_state_dict (d : state_dict) : M unit :=
  s ← get;
  modify (log (EvLoadStateDict d)) ;;
  lift (load_state_dict_status env (model s) d) ;;
  modify (with_model (set_params d)).

(** [optimizer.load_state_dict(o)] *)
Definition load_optimizer (o : Z) : M unit :=
  modify (log (EvLoadOptimizer o)) ;;
  lift (load_optimizer_status env o) ;;
  modify (set_optimizer o).

(** Lines 270-292.  [state_dict] and [checkpoint['state_dict']] are one
    object: the renaming done through the first name is what the
    second lookup of line 289 sees, so the checkpoint is updated with
    the renamed dictionary before it is read again.  Device placement
    (lines 271-281) is left out. *)
Definition load_checkpoint : M unit :=
  checkpoint ← torch_load (resume args);
  epoch ← getitem checkpoint "epoch";
  modify (set_start_epoch epoch) ;;
  best ← getitem checkpoint "best_acc1";
  modify (set_best_acc1 best) ;;
  sd_v ← getitem checkpoint "state_dict";
  match sd_v with
  | PStateDict sd =>
      s ← get;
      let model_dict := params (model s) in
      sd' ← lift (strip_module_prefix sd model_dict);
      let checkpoint := <["state_dict" := PStateDict sd']> checkpoint in
      loaded ← getitem checkpoint "state_dict";
      match loaded with
      | PStateDict d => load_state_dict d
      | _ => raise TypeError
      end ;;
      opt ← getitem checkpoint "optimizer";
      match opt with
      | POptimizer o => load_optimizer o
      | _ => raise TypeError
      end
  | _ => raise AttributeError   (* no [keys()] *)
  end.

(** Lines 268-297. *)
Definition resume_or_calibrate : M unit :=
  if negb (String.eqb (resume args) "") then
    s ← get;
    if isfile (resume args) (fs s) then load_checkpoint
    else mret tt   (* "no checkpoint found" *)
  else if quant args then
    enable_calibration ;;
    calibrate
  else mret tt.

(** Lines 301-302. *)
Definition quantize : M unit :=
  if quant args then enable_quantization else mret tt.

(** ** The deploy path, lines 304-329 *)

Definition output_dir : string := arch args.
Definition export_sg_file : string :=
  path_join output_dir (arch args ++ ".sg").
Definition clip_range_file : string :=
  path_join output_dir (arch args ++ "_act_clip.json").
Definition export_8bit_file : string :=
  replace ".sg" "_8bit.sg" export_sg_file.

Definition qconfig : QConfig :=
  [("quant_ops", [("DepthWiseConv2D", [("per_channel", false)])])].

(** [rb_api.gen_sg_from_pytorch(model, input, clip_range_file=..,
    ir_graph=..)]: the graph is returned and the clip ranges are written
    to [clip_range_file]. *)
Definition gen_sg (clip_file ir_graph : string) : M SG :=
  s ← get;
  modify (log (EvGenSg (model s) clip_file ir_graph)) ;;
  r ← lift (gen_sg_from_pytorch env (model s));
  modify (with_fs (write_file clip_file (JsonFile (snd r)))) ;;
  mret (fst r).

(** [rb_api.save_sg(sg, path)] *)
Definition save_sg (sg : SG) (path : string) : M unit :=
  modify (log (EvSaveSg sg path)) ;;
  lift (save_sg_status env sg path) ;;
  modify (with_fs (write_file path (SgFile sg))).

(** [with open(path, 'r') as f: json.loads(f.read())] *)
Definition read_json (path : string) : M ClipRanges :=
  s ← get;
  match files (fs s) !! path with
  | Some (JsonFile clip) => mret clip
  | Some _ => raise (ExternalError "JSONDecodeError")
  | None => raise (FileNotFoundError path)
  end.

(** [rb_api.gen_quant_sg_from_clip_ranges(sg, clip_ranges, qconfig)] *)
Definition gen_quant_sg (sg : SG) (clip : ClipRanges) (qc : QConfig) : M SG :=
  modify (log (EvGenQuantSg sg clip qc)) ;;
  lift (gen_quant_sg_from_clip_ranges env sg clip qc).

(** [convert_merge_bn(model.eval())], lines 313 and 334. *)
Definition fold_bn : M unit :=
  model_eval ;; convert_merge_bn.

(** Lines 314-328. *)
Definition export_graphs : M unit :=
  modify (with_model set_on_cpu) ;;
  model_eval ;;
  sg ← gen_sg clip_range_file "graph.log";
  save_sg sg export_sg_file ;;
  (* export 8bit sg *)
  clip_ranges ← read_json clip_range_file;
  qsg ← gen_quant_sg sg clip_ranges qconfig;
  save_sg qsg export_8bit_file.

Definition deploy_path : M unit :=
  fold_bn ;; export_graphs.

(** ** validate, lines 451-492 *)

Definition q_mul (v : Q) (n : Z) : Q := v * inject_Z n.
Definition q_div (x : Q) (n : Z) : Q := x / inject_Z n.

Definition meter_step (m : Meter.val_meters Q) (b : Meter.batch_result Q)
  : M (Meter.val_meters Q) :=
  fun s => match Meter.validate_step Qplus q_mul q_div m b with
           | (Ok _, m') => (Ok m', s)
           | (Raise e, _) => (Raise e, s)
           end.

Fixpoint validate_batches (i : Z) (batches : list (Meter.batch_result Q))
    (m : Meter.val_meters Q) : M (Meter.val_meters Q) :=
  match batches with
  | [] => mret m
  | b :: rest =>
      forward i ;;
      m' ← meter_step m b;
      validate_batches (i + 1) rest m'
  end.

Definition fresh_meters : Meter.val_meters Q :=
  {| Meter.losses := Meter.reset 0%Q;
     Meter.top1 := Meter.reset 0%Q;
     Meter.top5 := Meter.reset 0%Q |}.

Definition validate : M Q :=
  model_eval ;;
  s ← get;
  modify (log (EvValidate (model s))) ;;
  m ← validate_batches 0 (val_outputs env (model s)) fresh_meters;
  mret (Meter.avg (Meter.top1 m)).

(** ** train, lines 401-449 *)

(** The optimisation is external: after the epoch the parameters are
    what [trained_params] says.  The meters of [train] only feed the
    display and are left out. *)
Definition train (epoch : Z) : M unit :=
  model_train ;;
  modify (log (EvTrain epoch)) ;;
  for_each (train_loader env) forward ;;
  modify (with_model (fun m =>
    set_epochs_trained (S (epochs_trained m))
      (set_params (trained_params env m epoch) m))).

(** ** The training loop, lines 339-362 *)

Definition as_number (x : pyval) : result Q :=
  match x with
  | PInt z => Ok (inject_Z z)
  | PNum q => Ok q
  | _ => Raise TypeError
  end.

(** [a > b] *)
Definition q_gt (a b : Q) : bool := negb (Qle_bool a b).

(** The call of [save_checkpoint] of lines 355-362, on the driver's
    file system.  The dictionary is built for the call and dropped
    after it. *)
Definition call_save_checkpoint (state : gmap string pyval)
    (is_best : bool) : M unit :=
  fun s =>
    match save_checkpoint env is_best (state, fs s) with
    | (r, (_, f')) => (r, with_fs (fun _ => f') s)
    end.

Definition epoch_body (epoch : Z) : M unit :=
  train epoch ;;
  acc1 ← validate;
  s ← get;
  best ← lift (as_number (best_acc1 s));
  let is_best := q_gt acc1 best in
  (* max(acc1, best_acc1) *)
  let best' := if q_gt best acc1 then best_acc1 s else PNum acc1 in
  modify (set_best_acc1 best') ;;
  s ← get;
  modify (log (EvSaveCheckpoint (arch args) is_best)) ;;
  call_save_checkpoint
    (list_to_map
       [("epoch", PInt (epoch + 1));
        ("arch", PStr (arch args));
        ("state_dict", PStateDict (params (model s)));
        ("cur_acc", PNum acc1);
        ("best_acc1", best');
        ("optimizer", POptimizer (optimizer s))])
    is_best.

(** [range(args.start_epoch, args.epochs)] *)
Definition epoch_range (start : pyval) : result (list Z) :=
  match start with
  | PInt a => Ok (seqZ a (epochs args - a))
  | _ => Raise TypeError
  end.

Definition train_loop : M unit :=
  s ← get;
  es ← lift (epoch_range (start_epoch s));
  for_each es epoch_body.

(** ** main_worker, from line 267 on *)

(** Lines 331-337. *)
Definition evaluate_path : M unit :=
  (if quant args then fold_bn else mret tt) ;;
  validate ;;
  mret tt.

(** Lines 304-362: deploy, evaluate or train. *)
Definition after_quantize : M unit :=
  if (quant args && deploy args)%bool then deploy_path
  else if evaluate args then evaluate_path
  else train_loop.

Definition main_worker : M unit :=
  resume_or_calibrate ;;
  quantize ;;
  after_quantize.

End Worker.

(** ** Specifications of driver code *)

(** [triple pre c P post]: from a state satisfying [pre], the computation
    [c] only appends to the trace, every event it appends satisfies [P],
    and when it returns normally the value and the state satisfy
    [post]. *)
Definition triple {A} (pre : State -> Prop) (c : M A) (P : event -> Prop)
    (post : A -> State -> Prop) : Prop :=
  forall s, pre s ->
    exists evs, trace (snd (c s)) = trace s ++ evs
                /\ Forall P evs
                /\ forall a, fst (c s) = Ok a -> post a (snd (c s)).

(** [c] keeps the invariant [inv] and emits only events that satisfy
    [P]. *)
Definition keeps {A} (inv : State -> Prop) (c : M A) (P : event -> Prop)
  : Prop :=
  triple inv c P (fun _ => inv).

(** [c] emits only events that satisfy [P]. *)
Definition emits {A} (c : M A) (P : event -> Prop) : Prop :=
  triple (fun _ => True) c P (fun _ _ => True).

(** Every fake-quantization node of the model is in quantized mode. *)
Definition all_quantized (m : Model) : Prop :=
  Forall (fun n => mode n = quantized) (nodes m).

(** No node of the model has observed a batch. *)
Definition nothing_observed (ns : list FakeQuantNode) : Prop :=
  Forall (fun n => observed n = 0) ns.

(** What C5 asks of a call of [convert_merge_bn]: the model it is handed
    is in evaluation mode and none of its nodes is calibrating (they are
    all quantized). *)
Definition merge_bn_in_eval_mode (e : event) : Prop :=
  match e with
  | EvConvertMergeBn m => training m = false /\ all_quantized m
  | _ => True
  end.

(** What C3 asks of the events up to [enable_quantization]: no
    calibration was enabled, no batch was run, and the nodes handed to
    [enable_quantization] have observed nothing. *)
Definition uncalibrated (e : event) : Prop :=
  match e with
  | EvEnableCalibration => False
  | EvForward _ => False
  | EvEnableQuantization before => nothing_observed before
  | _ => True
  end.

(** The paths the deploy path hands to the writers of rbcompiler are the
    final ones. *)
Definition writes_final_paths (args : Args) (e : event) : Prop :=
  match e with
  | EvSaveSg _ p => p = export_sg_file args \/ p = export_8bit_file args
  | EvGenSg _ clip _ => clip = clip_range_file args
  | _ => True
  end.

End Driver.

(* ================================================================== *)
(** * Concrete runs *)

Module Samples.
Import Driver.

(** Two fake-quantization nodes fresh from preparation. *)
Definition fresh_nodes : list FakeQuantNode :=
  [ {| mode := disabled; observed := 0 |};
    {| mode := disabled; observed := 0 |} ].

Definition model0 : Model :=
  {| training := true;
     nodes := fresh_nodes;
     params := [("x", 10%Z); ("fc.weight", 11%Z)];
     bn_merged := false;
     on_cpu := false;
     epochs_trained := 0 |}.

(** A checkpoint whose renamed keys meet: [module.module.x] becomes
    [module.x], which is still waiting to be renamed. *)
Definition colliding_state_dict : state_dict :=
  [("module.module.x", 1%Z); ("module.x", 2%Z)].

(** A checkpoint saved from a [DataParallel] wrapper. *)
Definition wrapped_state_dict : state_dict :=
  [("module.x", 1%Z); ("module.fc.weight", 2%Z)].

Definition checkpoint_of (sd : state_dict) : gmap string pyval :=
  list_to_map
    [("epoch", PInt 3);
     ("arch", PStr "resnet18");
     ("state_dict", PStateDict sd);
     ("best_acc1", PNum (70 # 1));
     ("optimizer", POptimizer 5)].

Definition fs_empty : FS := {| dirs := ∅; files := ∅ |}.

(** The mapping [main_worker] hands to [save_checkpoint]. *)
Definition save_state : gmap string pyval :=
  list_to_map
    [("epoch", PInt 1);
     ("arch", PStr "resnet18");
     ("state_dict", PStateDict [("x", 10%Z); ("fc.weight", 11%Z)]);
     ("cur_acc", PNum (75 # 1));
     ("best_acc1", PNum (75 # 1));
     ("optimizer", POptimizer 5)].

Definition fs_with_checkpoint (sd : state_dict) : FS :=
  {| dirs := ∅;
     files := {[ "ckpt.pth.tar" := TorchFile (checkpoint_of sd) ]} |}.

Definition state_of (f : FS) : State :=
  {| model := model0; fs := f; start_epoch := PInt 0;
     best_acc1 := PInt 0; optimizer := 0; trace := [] |}.

Definition one_batch : list (Meter.batch_result Q) :=
  [ {| Meter.b_loss := 1 # 2; Meter.b_acc1 := 75 # 1;
       Meter.b_acc5 := 90 # 1; Meter.b_size := 4 |} ].

(** Every external call goes through. *)
Definition env_ok : Env :=
  {| cali_loader := [1%Z; 2%Z];
     train_loader := [1%Z];
     val_outputs := fun _ => one_batch;
     trained_params := fun m _ => params m;
     load_state_dict_status := fun _ _ => Ok tt;
     load_optimizer_status := fun _ => Ok tt;
     gen_sg_from_pytorch := fun _ => Ok (1%Z, [("conv1", (0 # 1, 6 # 1))]);
     gen_quant_sg_from_clip_ranges := fun sg _ _ => Ok (sg + 1)%Z;
     save_sg_status := fun _ _ => Ok tt;
     format_2f := fun _ => "75.00";
     str_float := fun _ => "0.0" |}.

(** The quantized graph cannot be derived. *)
Definition env_quant_fails : Env :=
  {| cali_loader := [1%Z; 2%Z];
     train_loader := [1%Z];
     val_outputs := fun _ => one_batch;
     trained_params := fun m _ => params m;
     load_state_dict_status := fun _ _ => Ok tt;
     load_optimizer_status := fun _ => Ok tt;
     gen_sg_from_pytorch := fun _ => Ok (1%Z, [("conv1", (0 # 1, 6 # 1))]);
     gen_quant_sg_from_clip_ranges :=
       fun _ _ _ => Raise (ExternalError "MissingCalibrationDataError");
     save_sg_status := fun _ _ => Ok tt;
     format_2f := fun _ => "75.00";
     str_float := fun _ => "0.0" |}.

Definition args_resume : Args :=
  {| arch := "resnet18"; resume := "ckpt.pth.tar"; quant := true;
     deploy := false; evaluate := true; epochs := 4 |}.

Definition args_deploy : Args :=
  {| arch := "resnet18"; resume := ""; quant := true;
     deploy := true; evaluate := false; epochs := 4 |}.

Definition args_train : Args :=
  {| arch := "resnet18"; resume := ""; quant := true;
     deploy := false; evaluate := false; epochs := 1 |}.

End Samples.

(* ================================================================== *)
(** * Notions used to describe runs of the driver *)

Module Runs.
Import Driver.

(** The keys [torch.nn.DataParallel] gives to the state dict of the model
    it wraps: each one prefixed with [module.]. *)
Definition wrap_prefix (sd : state_dict) : state_dict :=
  (fun kv => ("module." ++ fst kv, snd kv)%string) <$> sd.

(** The epochs for which [train] was called, in order. *)
Fixpoint trained_epochs (evs : list event) : list Z :=
  match evs with
  | [] => []
  | EvTrain e :: rest => e :: trained_epochs rest
  | _ :: rest => trained_epochs rest
  end.

(** The [is_best] flags of the calls of [save_checkpoint], in order. *)
Fixpoint saved_checkpoints (evs : list event) : list bool :=
  match evs with
  | [] => []
  | EvSaveCheckpoint _ b :: rest => b :: saved_checkpoints rest
  | _ :: rest => saved_checkpoints rest
  end.

(** [c] keeps [inv] however it ends, normally or with an exception. *)
Definition preserves {A} (inv : State -> Prop) (c : M A) : Prop :=
  forall s, inv s -> inv (snd (c s)).


(** An event that is neither a training epoch nor a saved checkpoint. *)
Definition outside_training (e : event) : Prop :=
  match e with
  | EvTrain _ => False
  | EvSaveCheckpoint _ _ => False
  | _ => True
  end.

End Runs.

(* ================================================================== *)
(** * Code that only returns or raises *)

Module PyResult.

#[export] Instance result_ret : MRet result := fun A a => Ok a.

#[export] Instance result_bind : MBind result := fun A B f m =>
  match m with
  | Ok a => f a
  | Raise e => Raise e
  end.

End PyResult.

(* ================================================================== *)
(** * Launching the workers (main_a.py, lines 93-157) *)

Module Launch.
Import PyResult.

(** [BackendType] of [mqbench.prepare_by_platform], as far as the driver
    names it. *)
Inductive BackendType : Type :=
| Tensorrt
| NNIE
| PPLW8A16
| SNPE
| Vitis.

(** Lines 98-102. *)
Definition BackendMap : gmap string BackendType :=
  list_to_map
    [("tensorrt", Tensorrt);
     ("nnie", NNIE);
     ("ppl", PPLW8A16);
     ("snpe", SNPE);
     ("vitis", Vitis)].

(** The [choices] of [--backend], line 93. *)
Definition backend_choices : list string :=
  ["tensorrt"; "nnie"; "ppl"; "snpe"].

(** The fields of [args] that [main] and the first lines of
    [main_worker] read or write.  [main] replaces the string of
    [args.backend] by the backend type, so that field has either. *)
Record Args : Type := {
  quant : bool;
  not_quant : bool;
  backend : string + BackendType;
  dist_url : string;
  dist_backend : string;
  world_size : Z;
  rank : Z;
  gpu : option Z;
  multiprocessing_distributed : bool;
  distributed : bool
}.

(** The arguments of a call of [dist.init_process_group]. *)
Record ProcessGroup : Type := {
  pg_backend : string;
  pg_init_method : string;
  pg_world_size : Z;
  pg_rank : Z
}.

Section Launch.

(** [os.environ], the builtin [int] on a string, and
    [torch.cuda.device_count()]. *)
Variable environ : gmap string string.
Variable int : string -> result Z.
Variable device_count : nat.

(** [os.environ[k]] *)
Definition getenv (k : string) : result string :=
  match environ !! k with
  | Some v => Ok v
  | None => Raise (KeyError k)
  end.

(** Lines 128-129: the world size [main] goes on with. *)
Definition node_world_size (args : Args) : result Z :=
  if (String.eqb (dist_url args) "env://" && (world_size args =? -1)%Z)%bool
  then v ← getenv "WORLD_SIZE"; int v
  else Ok (world_size args).

(** Lines 150-151: the rank of the node. *)
Definition node_rank (args : Args) : result Z :=
  if (String.eqb (dist_url args) "env://" && (rank args =? -1)%Z)%bool
  then v ← getenv "RANK"; int v
  else Ok (rank args).

(** Lines 142-157 of [main_worker]: what has become of [args], and the
    process group the worker joins, if it joins one. *)
Definition main_worker (gpu : option Z) (ngpus_per_node : Z) (args : Args)
  : result (Args * option ProcessGroup) :=
  let args :=
    {| quant := quant args; not_quant := not_quant args;
       backend := backend args; dist_url := dist_url args;
       dist_backend := dist_backend args; world_size := world_size args;
       rank := rank args; gpu := gpu;
       multiprocessing_distributed := multiprocessing_distributed args;
       distributed := distributed args |} in
  if distributed args then
    r ← node_rank args;
    r ← (if multiprocessing_distributed args then
           (* args.rank * ngpus_per_node + gpu *)
           match gpu with
           | Some g => Ok (r * ngpus_per_node + g)%Z
           | None => Raise TypeError
           end
         else Ok r);
    let args :=
      {| quant := quant args; not_quant := not_quant args;
         backend := backend args; dist_url := dist_url args;
         dist_backend := dist_backend args; world_size := world_size args;
         rank := r; gpu := gpu;
         multiprocessing_distributed := multiprocessing_distributed args;
         distributed := distributed args |} in
    Ok (args,
        Some {| pg_backend := dist_backend args;
                pg_init_method := dist_url args;
                pg_world_size := world_size args;
                pg_rank := rank args |})
  else Ok (args, None).

(** Lines 106-139.  The seeding of the random generators and the
    warnings are left out.  The result lists the workers [main] starts,
    each with the outcome of its lines 142-157: the processes of
    [mp.spawn] get the indices of [range(ngpus_per_node)] and each its
    own copy of [args]. *)
Definition main (args : Args) : result (list (result (Args * option ProcessGroup))) :=
  let quant' := negb (not_quant args) in
  backend' ← match backend args with
             | inl name =>
                 match BackendMap !! name with
                 | Some b => Ok b
                 | None => Raise (KeyError name)
                 end
             | inr _ => Raise TypeError
             end;
  world_size' ← node_world_size args;
  let distributed' :=
    ((1 <? world_size')%Z || multiprocessing_distributed args)%bool in
  let ngpus_per_node := Z.of_nat device_count in
  let world_size'' :=
    if multiprocessing_distributed args
    then (ngpus_per_node * world_size')%Z else world_size' in
  let args' :=
    {| quant := quant'; not_quant := not_quant args;
       backend := inr backend'; dist_url := dist_url args;
       dist_backend := dist_backend args; world_size := world_size'';
       rank := rank args; gpu := gpu args;
       multiprocessing_distributed := multiprocessing_distributed args;
       distributed := distributed' |} in
  if multiprocessing_distributed args then
    Ok ((fun i => main_worker (Some i) ngpus_per_node args')
          <$> seqZ 0 ngpus_per_node)
  else
    Ok [main_worker (gpu args) ngpus_per_node args'].

End Launch.

(** The process groups that the workers join, in the order of the
    workers. *)
Definition groups (workers : list (result (Args * option ProcessGroup)))
  : list ProcessGroup :=
  omap (fun w => match w with
                 | Ok (_, Some g) => Some g
                 | _ => None
                 end) workers.

(** A node of a cluster of [W] nodes, started with
    [--multiprocessing-distributed] and a backend that the parser
    accepts: its world size, given or read from the environment, is [W],
    and its node rank [r] is one of [0 .. W-1]. *)
Definition node_ok (environ : gmap string string) (int : string -> result Z)
    (W : Z) (args : Args) (r : Z) : Prop :=
  multiprocessing_distributed args = true
  ∧ (∃ name, backend args = inl name ∧ name ∈ backend_choices)
  ∧ node_world_size environ int args = Ok W
  ∧ node_rank environ int args = Ok r
  ∧ (0 <= r < W)%Z.

End Launch.

(** ** A cluster of two nodes *)

Module LaunchSamples.
Import Launch.

(** No variable of the environment is read when [--dist-url] is a TCP
    address. *)
Definition no_int (s : string) : result Z := Raise ValueError.

(** [--multiprocessing-distributed --world-size 2 --rank r] with the
    defaults of the parser for the rest. *)
Definition node_args (r : Z) : Args :=
  {| quant := false; not_quant := false;
     backend := inl "tensorrt";
     dist_url := "tcp://224.66.41.62:23456";
     dist_backend := "nccl";
     world_size := 2; rank := r; gpu := None;
     multiprocessing_distributed := true;
     distributed := false |}.

End LaunchSamples.

(* ================================================================== *)
(** * accuracy (main_a.py, lines 558-572) *)

(** A tensor of two dimensions is the list of its rows, a tensor of one
    dimension a list; the class indices are integers.  The scaling of
    line 570 is done in exact rational arithmetic. *)
Module Accuracy.
Import PyResult.

(** [max(topk)] *)
Definition py_max (xs : list Z) : result Z :=
  match xs with
  | [] => Raise ValueError
  | x :: rest => Ok (fold_left Z.max rest x)
  end.

(** [l[:k]] *)
Definition slice_to {A} (k : Z) (l : list A) : list A :=
  if (k <? 0)%Z then take (List.length l - Z.to_nat (- k)) l
  else take (Z.to_nat k) l.

(** [pred.t()] for a [pred] of [cols] columns: row [i] of the result is
    column [i] of [pred]. *)
Definition t (cols : nat) (pred : list (list Z)) : list (list Z) :=
  (fun i => (fun row => nth i row 0%Z) <$> pred) <$> seq 0 cols.

(** [target.view(1, -1).expand_as(pred)] for a [pred] of [rows] rows that
    is [width] wide: [target] as one row, repeated.  A [target] of a
    single element is broadcast along the row too; any other size that
    does not fit is refused with a [RuntimeError]. *)
Definition expand_as (target : list Z) (rows width : nat)
  : result (list (list Z)) :=
  if decide (List.length target = width) then Ok (replicate rows target)
  else match target with
       | [x] => Ok (replicate rows (replicate width x))
       | _ => Raise (ExternalError "RuntimeError")
       end.

(** [a.eq(b)] on tensors of the same shape. *)
Definition eq (a b : list (list Z)) : list (list bool) :=
  zip_with (zip_with Z.eqb) a b.

(** [.reshape(-1).float().sum(0, keepdim=True)] on a tensor of booleans:
    the number of its [True]s. *)
Definition sum_true (m : list (list bool)) : Z :=
  Z.of_nat (List.length (List.filter id (concat m))).

(** Lines 568-571. *)
Fixpoint accuracy_loop (correct : list (list bool)) (batch_size : Z)
    (ks : list Z) : result (list Q) :=
  match ks with
  | [] => Ok []
  | k :: rest =>
      let correct_k := sum_true (slice_to k correct) in
      if (batch_size =? 0)%Z then Raise ZeroDivisionError
      else
        res ← accuracy_loop correct batch_size rest;
        Ok ((inject_Z correct_k * (100 / inject_Z batch_size))%Q :: res)
  end.

Section Accuracy.

(** The scores of a batch, and [output.topk(maxk, 1, True, True)[1]] on
    them: for each sample the indices of its [maxk] largest scores, the
    best first.  torch refuses a [maxk] that is out of range. *)
Context {Output : Type}.
Variable tensor_topk : Output -> Z -> result (list (list Z)).

Definition accuracy (output : Output) (target : list Z) (topk : list Z)
  : result (list Q) :=
  maxk ← py_max topk;
  let batch_size := Z.of_nat (List.length target) in
  pred ← tensor_topk output maxk;
  let width := List.length pred in
  let pred := t (Z.to_nat maxk) pred in
  target' ← expand_as target (Z.to_nat maxk) width;
  let correct := eq pred target' in
  accuracy_loop correct batch_size topk.

End Accuracy.

(** Row [i] of [correct]: sample by sample, whether the prediction of
    place [i] is the target. *)
Definition hits (pred : list (list Z)) (target : list Z) (i : nat)
  : list bool :=
  zip_with Z.eqb ((fun row => nth i row 0%Z) <$> pred) target.

Definition trues (m : list (list bool)) : nat :=
  List.length (List.filter id (concat m)).

(** The number of rows that [correct[:k]] keeps of [rows] rows. *)
Definition kept (k : Z) (rows : nat) : nat :=
  if (k <? 0)%Z then rows - Z.to_nat (- k) else Nat.min (Z.to_nat k) rows.

(** ** A batch of two samples over five classes *)

(** Scores given as the ranking of the classes, the best first. *)
Definition ranked_topk (output : list (list Z)) (maxk : Z)
  : result (list (list Z)) :=
  Ok (take (Z.to_nat maxk) <$> output).

Definition sample_output : list (list Z) :=
  [[3; 1; 0; 2; 4]; [1; 2; 0; 4; 3]]%Z.

Definition sample_target : list Z := [3; 0]%Z.

End Accuracy.

(* ================================================================== *)
(** * adjust_learning_rate (main_a.py, lines 551-555) *)

Module Schedule.
Import Driver.

(** One of the dictionaries of [optimizer.param_groups]. *)
Definition param_group : Type := gmap string pyval.

(** Line 553, [args.lr * (0.1 ** (epoch // 5))], in exact rational
    arithmetic. *)
Definition decayed_lr (lr : Q) (epoch : Z) : Q :=
  (lr * (1 # 10) ^ (epoch / 5))%Q.

(** Lines 551-555.  The dictionaries are updated in place; the result is
    [optimizer.param_groups] after the call. *)
Definition adjust_learning_rate (param_groups : list param_group)
    (epoch : Z) (lr : Q) : list param_group :=
  (fun param_group => <["lr" := PNum (decayed_lr lr epoch)]> param_group)
    <$> param_groups.

(** Two parameter groups as an optimizer may hold them. *)
Definition sample_groups : list param_group :=
  [ {["lr" := PNum (1 # 2); "momentum" := PNum (9 # 10)]};
    {["lr" := PNum (1 # 100); "weight_decay" := PNum 0]} ].

End Schedule.

(* ================================================================== *)
(** * Properties of the rule accessors *)

Import Quantizer.

(** Without configuration the accessors return the base rules alone. *)
Example default_rule_sets :
  function_type_to_quant_input
    (new_quantizer {| cfg_additional_function_type := None;
                      cfg_additional_module_type := None |}) = [torch_matmul]
  ∧ module_type_to_quant_input
    (new_quantizer {| cfg_additional_function_type := None;
                      cfg_additional_module_type := None |}) = [qat_Linear].
Proof. split; reflexivity. Qed.

(** The EfficientNet configuration of main_a.py, lines 206-208. *)
Example efficientnet_rule_sets :
  module_type_to_quant_input
    (new_quantizer
       {| cfg_additional_function_type := None;
          cfg_additional_module_type :=
            Some [other_module "QConvStaticSamePadding2d"] |})
  = [qat_Linear; other_module "QConvStaticSamePadding2d"].
Proof. reflexivity. Qed.

(** C1: for every [AcademicNLPQuantizer] instance,
    [function_type_to_quant_input] is the base rule [torch.matmul]
    followed by the instance's [additional_function_type], and
    [module_type_to_quant_input] is the base rule [Linear] followed by the
    instance's [additional_module_type]; every element of either extension
    occurs in the collection returned. *)
Theorem rule_sets_are_base_then_extension (self : AcademicNLPQuantizer) :
  function_type_to_quant_input self
    = [torch_matmul] ++ additional_function_type self
  ∧ module_type_to_quant_input self
    = [qat_Linear] ++ additional_module_type self
  ∧ Forall (fun f => In f (function_type_to_quant_input self))
      (additional_function_type self)
  ∧ Forall (fun m => In m (module_type_to_quant_input self))
      (additional_module_type self).
Proof.
  unfold function_type_to_quant_input, module_type_to_quant_input.
  repeat split.
  - apply List.Forall_forall. intros f Hf. apply in_or_app. now right.
  - apply List.Forall_forall. intros m Hm. apply in_or_app. now right.
Qed.

(** C4: the function rules are not deduplicated.  The list has one entry
    more than the extension, starts with [torch.matmul], continues with
    the extension in its order, and holds [torch.matmul] once more often
    than the extension does. *)
Theorem function_rules_keep_duplicates (self : AcademicNLPQuantizer) :
  let A := additional_function_type self in
  let rules := function_type_to_quant_input self in
  length rules = 1 + length A
  ∧ rules !! 0 = Some torch_matmul
  ∧ (∀ i : nat, rules !! (S i) = A !! i)
  ∧ count_occ FunctionType_eq_dec rules torch_matmul
    = 1 + count_occ FunctionType_eq_dec A torch_matmul.
Proof.
  cbn zeta. unfold function_type_to_quant_input.
  split; [reflexivity|]. split; [reflexivity|]. split.
  - intros i. reflexivity.
  - cbn [app count_occ].
    destruct (FunctionType_eq_dec torch_matmul torch_matmul) as [_|Hne];
      [reflexivity | now destruct Hne].
Qed.

(** An extension that lists [torch.matmul] again yields it twice. *)
Example matmul_listed_twice :
  function_type_to_quant_input
    {| additional_function_type := [torch_matmul; other_function "torch.bmm"];
       additional_module_type := [] |}
  = [torch_matmul; torch_matmul; other_function "torch.bmm"].
Proof. reflexivity. Qed.

(* ================================================================== *)
(** * Properties of the registry *)

Import Registry.

(** C2: after nlp_quantizer.py is loaded, ['CNN'] and ['Transformer'] each
    resolve to the [AcademicNLPQuantizer] class and to nothing else, the
    decorated name is still bound to the class, no other family is
    touched, and registering a family again overwrites its entry. *)
Theorem registration_maps_both_families (t : table) (family : string)
    (c1 c2 : QuantizerClass) :
  let t' := snd (load_nlp_quantizer t) in
  fst (load_nlp_quantizer t) = AcademicNLPQuantizer_class
  ∧ t' = <["CNN" := AcademicNLPQuantizer_class]>
           (<["Transformer" := AcademicNLPQuantizer_class]> t)
  ∧ (∀ c, resolve "CNN" t' = Ok c ↔ c = AcademicNLPQuantizer_class)
  ∧ (∀ c, resolve "Transformer" t' = Ok c ↔ c = AcademicNLPQuantizer_class)
  ∧ resolve family (register family c2 (register family c1 t)) = Ok c2
  ∧ register family c2 (register family c1 t) = register family c2 t.
Proof.
  cbn zeta. unfold load_nlp_quantizer, register_model_quantizer, register.
  cbn [fst snd].
  assert (Hcnn : resolve "CNN"
            (<["CNN" := AcademicNLPQuantizer_class]>
               (<["Transformer" := AcademicNLPQuantizer_class]> t))
          = Ok AcademicNLPQuantizer_class).
  { unfold resolve. now rewrite lookup_insert_eq. }
  assert (Htr : resolve "Transformer"
            (<["CNN" := AcademicNLPQuantizer_class]>
               (<["Transformer" := AcademicNLPQuantizer_class]> t))
          = Ok AcademicNLPQuantizer_class).
  { unfold resolve.
    rewrite lookup_insert_ne by discriminate.
    now rewrite lookup_insert_eq. }
  split; [reflexivity|]. split; [reflexivity|].
  split; [|split; [|split]].
  - intros c. rewrite Hcnn. split; congruence.
  - intros c. rewrite Htr. split; congruence.
  - unfold resolve. now rewrite lookup_insert_eq.
  - apply insert_insert_eq.
Qed.

(** A family nobody registered does not resolve. *)
Example unknown_family :
  resolve "GNN" (snd (load_nlp_quantizer ∅)) = Raise (UnknownFamilyError "GNN").
Proof. reflexivity. Qed.

(* ================================================================== *)
(** * Properties of AverageMeter *)

Section MeterFacts.
Context {num : Type}.
Variable zero : num.
Variable add : num -> num -> num.
Variable mul : num -> Z -> num.
Variable div : num -> Z -> num.

Import Meter.

Local Abbreviation meter := (Meter.AverageMeter num).
Local Abbreviation update := (Meter.update add mul div).
Local Abbreviation updates := (Meter.updates add mul div).
Local Abbreviation settled := (Meter.settled div).

Lemma last_default_irrelevant {A} (l : list A) (d d' : A) :
  l ≠ [] -> List.last l d = List.last l d'.
Proof.
  induction l as [|a [|b l] IH]; intros Hne; [congruence | reflexivity |].
  change (List.last (b :: l) d = List.last (b :: l) d').
  apply IH. discriminate.
Qed.

Lemma last_cons_default {A} (a : A) (l : list A) (d : A) :
  List.last (a :: l) d = List.last l a.
Proof.
  destruct l as [|b l]; [reflexivity|].
  change (List.last (b :: l) d = List.last (b :: l) a).
  apply last_default_irrelevant. discriminate.
Qed.

Lemma update_positive (m : meter) (v : num) (n : Z) :
  (0 <= count m)%Z -> (0 < n)%Z ->
  ∃ m', update m v n = (Ok tt, m')
        ∧ val m' = v
        ∧ sum m' = add (sum m) (mul v n)
        ∧ count m' = (count m + n)%Z
        ∧ settled m'.
Proof.
  intros Hc Hn. unfold Meter.update.
  destruct (Z.eqb_spec (count m + n) 0) as [E|_]; [exfalso; lia|].
  eexists. split; [reflexivity|].
  unfold Meter.settled. cbn [val avg sum count].
  repeat split. lia.
Qed.

Lemma updates_positive (calls : list (num * Z)) : ∀ m : meter,
  (0 <= count m)%Z ->
  Forall (fun c => (0 < snd c)%Z) calls ->
  ∃ m', updates m calls = (Ok tt, m')
        ∧ count m' = fold_left (fun acc c => (acc + snd c)%Z) calls (count m)
        ∧ sum m' = fold_left (fun acc c => add acc (mul (fst c) (snd c)))
                     calls (sum m)
        ∧ val m' = List.last (List.map fst calls) (val m)
        ∧ (0 <= count m')%Z
        ∧ (calls = [] -> m' = m)
        ∧ (calls ≠ [] -> settled m').
Proof.
  induction calls as [|[v n] rest IH]; intros m Hc Hpos.
  - exists m. cbn. split_and!; done.
  - apply List.Forall_cons_iff in Hpos as [Hn Hrest]. cbn [snd] in Hn.
    destruct (update_positive m v n Hc Hn)
      as (m1 & Hup & Hval & Hsum & Hcount & Hset).
    destruct (IH m1 ltac:(lia) Hrest)
      as (m' & Hrun & Hc' & Hs' & Hv' & Hnn & Hnil & Hcons).
    exists m'. cbn [Meter.updates]. rewrite Hup.
    split; [exact Hrun|].
    cbn [fold_left fst snd List.map].
    rewrite last_cons_default, <- Hcount, <- Hsum, <- Hval.
    split_and!; try assumption; try discriminate.
    intros _. destruct rest as [|c rest'].
    + now rewrite (Hnil eq_refl).
    + apply Hcons. discriminate.
Qed.

Lemma validate_loop_positive (batches : list (Meter.batch_result num)) :
  ∀ m : Meter.val_meters num,
  (0 <= count (losses m))%Z -> (0 <= count (top1 m))%Z ->
  (0 <= count (top5 m))%Z ->
  Forall (fun b => (0 < b_size b)%Z) batches ->
  ∃ m', Meter.validate_loop add mul div m batches = (Ok tt, m')
        ∧ updates (top1 m) (top1_calls batches) = (Ok tt, top1 m').
Proof.
  induction batches as [|b rest IH]; intros m Hl H1 H5 Hpos.
  - exists m. split; reflexivity.
  - apply List.Forall_cons_iff in Hpos as [Hn Hrest].
    destruct (update_positive (losses m) (b_loss b) _ Hl Hn)
      as (l' & El & _ & _ & Cl & _).
    destruct (update_positive (top1 m) (b_acc1 b) _ H1 Hn)
      as (t1 & E1 & _ & _ & C1 & _).
    destruct (update_positive (top5 m) (b_acc5 b) _ H5 Hn)
      as (t5 & E5 & _ & _ & C5 & _).
    destruct (IH {| losses := l'; top1 := t1; top5 := t5 |})
      as (m' & Hloop & Hups); cbn [losses top1 top5]; try lia; try assumption.
    exists m'. cbn [Meter.validate_loop top1_calls List.map Meter.updates].
    unfold Meter.validate_step.
    destruct (Z.eqb_spec (b_size b) 0) as [E0|_]; [lia|].
    rewrite El, E1, E5.
    split; [exact Hloop|]. exact Hups.
Qed.

(** C10: after [reset] and any sequence of [update(val, n)] calls with
    positive [n], no call has raised, [count] is the sum of the [n],
    [sum] is the sum of the [val * n], [val] is the argument of the
    last call and, once there was a call, [avg] is [sum / count] with a
    positive [count].  For [validate] on batches of positive size this
    makes the value returned, [top1.avg], the mean of the batch
    accuracies weighted by the batch sizes. *)
Theorem average_meter_invariant
    (calls : list (num * Z)) (batches : list (Meter.batch_result num)) :
  Forall (fun c => (0 < snd c)%Z) calls ->
  Forall (fun b => (0 < b_size b)%Z) batches ->
  (∃ m : meter,
      updates (reset zero) calls = (Ok tt, m)
      ∧ count m = total_count calls
      ∧ sum m = weighted_sum zero add mul calls
      ∧ val m = last_val zero calls
      ∧ (calls = [] -> avg m = zero)
      ∧ (calls ≠ [] ->
         avg m = div (sum m) (count m) ∧ (0 < count m)%Z))
  ∧ (batches = [] -> validate_meters zero add mul div batches = Ok zero)
  ∧ (batches ≠ [] ->
     validate_meters zero add mul div batches
     = Ok (div (weighted_sum zero add mul (top1_calls batches))
               (total_count (top1_calls batches)))).
Proof.
  intros Hcalls Hbatches. split; [|split].
  - destruct (updates_positive calls (reset zero) ltac:(cbn; lia) Hcalls)
      as (m & Hrun & Hc & Hs & Hv & _ & Hnil & Hcons).
    exists m. split_and!; try assumption.
    + intros E. now rewrite (Hnil E).
  - intros ->. reflexivity.
  - intros Hne.
    destruct (validate_loop_positive batches
                {| losses := reset zero; top1 := reset zero;
                   top5 := reset zero |})
      as (m' & Hloop & Hups); cbn [losses top1 top5 reset count];
      try lia; try assumption.
    assert (Hpos : Forall (fun c => (0 < snd c)%Z) (top1_calls batches)).
    { unfold top1_calls. apply List.Forall_map.
      eapply List.Forall_impl; [|exact Hbatches]. intros b Hb. exact Hb. }
    destruct (updates_positive (top1_calls batches) (reset zero)
                ltac:(cbn; lia) Hpos)
      as (m & Hrun & Hc & Hs & _ & _ & _ & Hcons).
    cbn [top1] in Hups. rewrite Hrun in Hups. injection Hups as Hm.
    unfold validate_meters. rewrite Hloop, <- Hm.
    destruct Hcons as [Havg _].
    { destruct batches; [congruence | discriminate]. }
    rewrite Havg, Hc, Hs. reflexivity.
Qed.

End MeterFacts.

(** The meter on rationals: two updates, [3] over two samples and [5]
    over one, and a validation run over two batches. *)
Lemma average_meter_invariant_witness :
  let calls := [(3 # 1, 2%Z); (5 # 1, 1%Z)] in
  let batches :=
    [ {| Meter.b_loss := 1 # 2; Meter.b_acc1 := 75 # 1;
         Meter.b_acc5 := 90 # 1; Meter.b_size := 4 |};
      {| Meter.b_loss := 1 # 4; Meter.b_acc1 := 50 # 1;
         Meter.b_acc5 := 100 # 1; Meter.b_size := 2 |} ] in
  (∃ m : Meter.AverageMeter Q,
      Meter.updates Qplus Driver.q_mul Driver.q_div (Meter.reset 0%Q) calls
      = (Ok tt, m)
      ∧ Meter.count m = Meter.total_count calls
      ∧ Meter.sum m = Meter.weighted_sum 0%Q Qplus Driver.q_mul calls
      ∧ Meter.val m = Meter.last_val 0%Q calls
      ∧ (calls = [] -> Meter.avg m = 0%Q)
      ∧ (calls ≠ [] ->
         Meter.avg m = Driver.q_div (Meter.sum m) (Meter.count m)
         ∧ (0 < Meter.count m)%Z))
  ∧ (batches = [] ->
     Meter.validate_meters 0%Q Qplus Driver.q_mul Driver.q_div batches = Ok 0%Q)
  ∧ (batches ≠ [] ->
     Meter.validate_meters 0%Q Qplus Driver.q_mul Driver.q_div batches
     = Ok (Driver.q_div
             (Meter.weighted_sum 0%Q Qplus Driver.q_mul
                (Meter.top1_calls batches))
             (Meter.total_count (Meter.top1_calls batches)))).
Proof.
  cbv zeta.
  apply (average_meter_invariant 0%Q Qplus Driver.q_mul Driver.q_div).
  - repeat (apply List.Forall_cons; [reflexivity|]). apply List.Forall_nil.
  - repeat (apply List.Forall_cons; [reflexivity|]). apply List.Forall_nil.
Defined.

(** The same run, evaluated: [validate] returns (75*4 + 50*2) / 6. *)
Example validate_weighted_mean :
  match Meter.validate_meters 0%Q Qplus Driver.q_mul Driver.q_div
          [ {| Meter.b_loss := 1 # 2; Meter.b_acc1 := 75 # 1;
               Meter.b_acc5 := 90 # 1; Meter.b_size := 4 |};
            {| Meter.b_loss := 1 # 4; Meter.b_acc1 := 50 # 1;
               Meter.b_acc5 := 100 # 1; Meter.b_size := 2 |} ] with
  | Ok a => Qeq_bool a (400 # 6) = true
  | Raise _ => False
  end.
Proof. vm_compute. reflexivity. Qed.

(** An [update] with [n = 0] on a fresh meter raises, after [val], [sum]
    and [count] were assigned. *)
Example update_zero_count_raises :
  Meter.update Qplus Driver.q_mul Driver.q_div (Meter.reset 0%Q) (7 # 1) 0
  = (Raise ZeroDivisionError,
     {| Meter.val := 7 # 1; Meter.avg := 0%Q;
        Meter.sum := (0 + (7 # 1) * inject_Z 0)%Q; Meter.count := 0%Z |}).
Proof. reflexivity. Qed.

(** The driver's [validate] returns what the meters of the batches say;
    the forward passes in between do not touch them. *)
Lemma validate_batches_value (bs : list (Meter.batch_result Q)) :
  ∀ (i : Z) (m : Meter.val_meters Q) (s : Driver.State),
  fst (Driver.validate_batches i bs m s)
  = match Meter.validate_loop Qplus Driver.q_mul Driver.q_div m bs with
    | (Ok _, m') => Ok m'
    | (Raise e, _) => Raise e
    end.
Proof.
  induction bs as [|b bs IH]; intros i m s; [reflexivity|].
  cbn [Driver.validate_batches Meter.validate_loop].
  unfold mbind, Driver.ST_bind, Driver.forward, Driver.modify,
    Driver.meter_step.
  destruct (Meter.validate_step Qplus Driver.q_mul Driver.q_div m b)
    as [[[]|e] m']; [apply IH | reflexivity].
Qed.

Lemma validate_value (env : Driver.Env) (s : Driver.State) :
  fst (Driver.validate env s)
  = Meter.validate_meters 0%Q Qplus Driver.q_mul Driver.q_div
      (Driver.val_outputs env
         (Driver.set_training false (Driver.model s))).
Proof.
  unfold Driver.validate, Meter.validate_meters, Driver.model_eval.
  unfold mbind, Driver.ST_bind, Driver.get, Driver.modify.
  cbn [fst snd Driver.model Driver.with_model Driver.log].
  pose proof (validate_batches_value
                (Driver.val_outputs env
                   (Driver.set_training false (Driver.model s)))
                0 Driver.fresh_meters
                (Driver.log
                   (Driver.EvValidate
                      (Driver.set_training false (Driver.model s)))
                   (Driver.with_model (Driver.set_training false) s))) as H.
  unfold Driver.fresh_meters in *.
  destruct (Driver.validate_batches _ _ _ _) as [[m|e] s'];
    cbn [fst] in H;
    destruct (Meter.validate_loop _ _ _ _ _) as [[[]|e'] m'];
    cbn; congruence.
Qed.

(* ================================================================== *)
(** * Properties of the checkpoint-resume path *)

Import PyStr Driver.

Lemma od_pop_head (k : string) (v : Tensor) (d : state_dict) :
  od_pop k ((k, v) :: d) = Ok (v, d).
Proof. cbn. now rewrite String.eqb_refl. Qed.

Lemma od_set_fresh (k : string) (v : Tensor) (d : state_dict) :
  k ∉ d.*1 -> od_set k v d = d ++ [(k, v)].
Proof.
  induction d as [|[k' v'] d IH]; intros Hk; [reflexivity|].
  cbn in Hk |- *. apply not_elem_of_cons in Hk as [Hne Hk].
  destruct (String.eqb_spec k k') as [->|_]; [congruence|].
  now rewrite IH.
Qed.

(** The renaming loop, seen from the middle: [pend] is still to be
    renamed, [done] has been. *)
Lemma strip_keys_pending (pend : state_dict) : ∀ done : state_dict,
  pending_clash_free pend.*1 ->
  NoDup (done.*1 ++ (slice_from 7 <$> pend.*1)) ->
  strip_keys pend.*1 (pend ++ done) = Ok (done ++ (strip_entry <$> pend)).
Proof.
  induction pend as [|[k v] pend IH]; intros done Hfree Hnd.
  - cbn. now rewrite app_nil_r.
  - cbn [fmap list_fmap fst strip_keys pending_clash_free] in *.
    destruct Hfree as [Hk Hfree].
    change (((k, v) :: pend) ++ done) with ((k, v) :: (pend ++ done)).
    rewrite od_pop_head, od_set_fresh.
    + rewrite <- app_assoc. rewrite IH; [|exact Hfree|].
      * now rewrite <- app_assoc.
      * rewrite fmap_app. cbn. now rewrite <- app_assoc.
    + rewrite fmap_app. apply not_elem_of_app. split; [exact Hk|].
      apply NoDup_app in Hnd as (_ & Hdisj & _).
      intros Hin. apply (Hdisj _ Hin). left.
Qed.

Lemma strip_keys_safe (sd : state_dict) :
  rename_safe sd.*1 ->
  strip_keys (List.map fst sd) sd = Ok (strip_entry <$> sd).
Proof.
  intros [Hnd Hfree].
  pose proof (strip_keys_pending sd [] Hfree Hnd) as H.
  now rewrite app_nil_r in H.
Qed.

Lemma needs_strip_first_keys (sd md : state_dict) (k0 m0 : string) (b : bool) :
  needs_strip sd md = Ok b ->
  first_key sd = Ok k0 -> first_key md = Ok m0 ->
  b = (contains "module." k0 && negb (contains "module." m0))%bool.
Proof.
  unfold needs_strip. intros H Hs Hm. rewrite Hs in H.
  destruct (contains "module." k0); cbn; [rewrite Hm in H|]; congruence.
Qed.

Lemma strip_module_prefix_safe (sd md : state_dict) (strip : bool) :
  needs_strip sd md = Ok strip ->
  (strip = true -> rename_safe sd.*1) ->
  strip_module_prefix sd md = Ok (if strip then strip_entry <$> sd else sd).
Proof.
  intros Hn Hsafe. unfold strip_module_prefix. rewrite Hn.
  destruct strip; [|reflexivity].
  apply strip_keys_safe, Hsafe. reflexivity.
Qed.

(** Unfolding one layer of the monad. *)
Ltac step_monad :=
  unfold mbind, ST_bind, mret, ST_ret, get, modify, lift, raise; cbn beta iota.

(** Away from the defect: on resume, when both state dicts have a first
    key, so that the test of line 285 has an outcome, and (when it holds)
    the keys can be renamed in place without meeting one another
    ([rename_safe]), every key loses its first seven characters, the
    entries keep their order and values, and that dictionary is what
    [load_state_dict] receives; when the test fails the dictionary is
    handed over as it is. *)
Theorem resume_strips_module_prefix (env : Env) (args : Args) (s : State)
    (ck : gmap string pyval) (e b0 : pyval) (sd : state_dict) (strip : bool) :
  files (fs s) !! resume args = Some (TorchFile ck) ->
  ck !! "epoch" = Some e ->
  ck !! "best_acc1" = Some b0 ->
  ck !! "state_dict" = Some (PStateDict sd) ->
  needs_strip sd (params (model s)) = Ok strip ->
  (strip = true -> rename_safe sd.*1) ->
  let loaded := if strip then strip_entry <$> sd else sd in
  (∀ k0 m0, first_key sd = Ok k0 -> first_key (params (model s)) = Ok m0 ->
     strip = (contains "module." k0 && negb (contains "module." m0))%bool)
  ∧ strip_module_prefix sd (params (model s)) = Ok loaded
  ∧ ∃ rest, trace (snd (load_checkpoint env args s))
            = trace s ++ EvLoadStateDict loaded :: rest.
Proof.
  intros Hfile He Hb Hsd Hn Hsafe loaded.
  pose proof (strip_module_prefix_safe _ _ _ Hn Hsafe) as Hstrip.
  split; [|split; [exact Hstrip|]].
  { intros k0 m0. now apply needs_strip_first_keys. }
  unfold load_checkpoint, torch_load, getitem. step_monad.
  rewrite Hfile, He. cbn. rewrite Hb. cbn. rewrite Hsd. cbn.
  rewrite Hstrip, lookup_insert_eq. fold loaded.
  unfold load_state_dict, load_optimizer. step_monad. cbn.
  destruct (load_state_dict_status env (model s) loaded) as [[]|err];
    [|eexists; reflexivity].
  rewrite lookup_insert_ne by discriminate.
  destruct (ck !! "optimizer") as [[z|q|str|d|o]|];
    try (eexists; reflexivity).
  destruct (load_optimizer_status env o) as [[]|err];
    cbn; rewrite <- app_assoc; eexists; reflexivity.
Qed.

Import Samples.

Lemma resume_strips_module_prefix_witness :
  let s := state_of (fs_with_checkpoint wrapped_state_dict) in
  let loaded := [("x", 1%Z); ("fc.weight", 2%Z)] in
  (∀ k0 m0, first_key wrapped_state_dict = Ok k0 ->
     first_key (params (model s)) = Ok m0 ->
     true = (contains "module." k0 && negb (contains "module." m0))%bool)
  ∧ strip_module_prefix wrapped_state_dict (params (model s)) = Ok loaded
  ∧ ∃ rest, trace (snd (load_checkpoint env_ok args_resume s))
            = trace s ++ EvLoadStateDict loaded :: rest.
Proof.
  apply (resume_strips_module_prefix env_ok args_resume
           (state_of (fs_with_checkpoint wrapped_state_dict))
           (checkpoint_of wrapped_state_dict)
           (PInt 3) (PNum (70 # 1)) wrapped_state_dict true).
  - reflexivity.
  - reflexivity.
  - reflexivity.
  - reflexivity.
  - reflexivity.
  - intros _. apply (bool_decide_unpack _). vm_compute. exact I.
Defined.

(** C8 (code defect): the loop of lines 286-287 renames in place, so a
    renamed key can meet one that is still to be renamed.  With the keys
    [module.module.x] and [module.x], in this order, the test of line 285
    holds and the claim asks for the keys [module.x] and [x]; the first
    renaming overwrites the second entry, the second one moves it on, and
    [load_state_dict] receives the single key [x] with the value of the
    first entry: the resume goes through with an entry lost. *)
Lemma resume_strip_collision :
  let s := state_of (fs_with_checkpoint colliding_state_dict) in
  needs_strip colliding_state_dict (params (model s)) = Ok true
  ∧ strip_entry <$> colliding_state_dict = [("module.x", 1%Z); ("x", 2%Z)]
  ∧ strip_module_prefix colliding_state_dict (params (model s))
    = Ok [("x", 1%Z)]
  ∧ load_checkpoint env_ok args_resume s
    = (Ok tt,
       {| model := set_params [("x", 1%Z)] model0;
          fs := fs_with_checkpoint colliding_state_dict;
          start_epoch := PInt 3;
          best_acc1 := PNum (70 # 1);
          optimizer := 5;
          trace := [EvLoadStateDict [("x", 1%Z)]; EvLoadOptimizer 5] |})
  ∧ ¬ (∀ sd md : state_dict,
         needs_strip sd md = Ok true ->
         strip_module_prefix sd md = Ok (strip_entry <$> sd)).
Proof.
  cbv zeta. split_and!; try reflexivity.
  intros H.
  specialize (H colliding_state_dict [("x", 10%Z)] eq_refl).
  vm_compute in H. discriminate H.
Qed.

(* ================================================================== *)
(** * Properties of save_checkpoint *)

Lemma append_cancel_l (a x y : string) : (a ++ x = a ++ y)%string -> x = y.
Proof.
  induction a as [|c a IH]; intros H; [exact H|].
  change (String c (a +:+ x) = String c (a +:+ y)) in H.
  injection H as H. now apply IH.
Qed.

Lemma count_char_app (c : ascii) (x y : string) :
  count_char c (x ++ y)%string = count_char c x + count_char c y.
Proof.
  induction x as [|d x IH]; [reflexivity|].
  change (String d x +:+ y)%string with (String d (x +:+ y)).
  cbn [count_char]. rewrite IH. lia.
Qed.

Lemma checkpoint_name_not_best (name acc epoch : string) :
  checkpoint_name name acc epoch ≠ "model_best.pth.tar".
Proof.
  intros H. apply (f_equal (count_char "_")) in H.
  unfold checkpoint_name in H. rewrite !count_char_app in H.
  cbn in H. lia.
Qed.

Lemma checkpoint_path_not_best (name acc epoch : string) :
  path_join name (checkpoint_name name acc epoch)
  ≠ path_join name "model_best.pth.tar".
Proof.
  unfold path_join.
  change (startswith "/" "model_best.pth.tar") with false. cbv iota.
  destruct (startswith "/" (checkpoint_name name acc epoch)).
  - unfold checkpoint_name.
    destruct (String.eqb name "" || endswith_sep name)%bool;
      intros H; apply append_cancel_l in H; discriminate H.
  - destruct (String.eqb name "" || endswith_sep name)%bool;
      intros H; apply append_cancel_l in H;
      [|apply (append_cancel_l "/") in H];
      exact (checkpoint_name_not_best _ _ _ H).
Qed.

Lemma mkdir_fresh (name : string) (f : FS) :
  isdir name f = false ->
  (negb (String.eqb name "") && negb (isfile name f))%bool = true ->
  mkdir name f = Ok (add_dir name f).
Proof.
  intros Hd H. apply andb_true_iff in H as [Hn Hf].
  apply negb_true_iff in Hn, Hf.
  unfold mkdir. now rewrite Hn, Hd, Hf.
Qed.

Lemma ensure_dir_ok (name : string) (state : gmap string pyval) (f : FS) :
  (isdir name f || negb (String.eqb name "") && negb (isfile name f))%bool
    = true ->
  ensure_dir name (state, f)
  = (Ok tt, (state, if isdir name f then f else add_dir name f)).
Proof.
  intros Hdir. unfold ensure_dir, sc_fs, sc_set_fs. step_monad. cbn [fst snd].
  destruct (isdir name f) eqn:E; [reflexivity|].
  cbn [orb] in Hdir. cbn [fst snd]. now rewrite (mkdir_fresh _ _ E Hdir).
Qed.

(** C9: [save_checkpoint] returns normally on a state that holds an
    architecture name, a numeric [cur_acc] and a numeric [epoch], when the
    directory exists or can be made.  It removes ['cur_acc'] from the
    caller's mapping and leaves every other key as it was; the file saved
    holds the mapping without ['cur_acc']; and with [is_best] the saved
    file is copied to [model_best.pth.tar] in the architecture's
    directory (without it that path is left alone). *)
Theorem save_checkpoint_pops_cur_acc (env : Env)
    (state : gmap string pyval) (is_best : bool) (f : FS)
    (name acc_s epoch_s : string) (acc ep cur_epoch : pyval) :
  state !! "arch" = Some (PStr name) ->
  state !! "cur_acc" = Some acc ->
  state !! "epoch" = Some ep ->
  fmt_2f env acc = Ok acc_s ->
  minus_one ep = Ok cur_epoch ->
  fmt_num env cur_epoch = Ok epoch_s ->
  (isdir name f || negb (String.eqb name "") && negb (isfile name f))%bool
    = true ->
  let filename := path_join name (checkpoint_name name acc_s epoch_s) in
  let best_f := path_join name "model_best.pth.tar" in
  let state' := delete "cur_acc" state in
  ∃ f' : FS,
    save_checkpoint env is_best (state, f) = (Ok tt, (state', f'))
    ∧ state' !! "cur_acc" = None
    ∧ (∀ k, k ≠ "cur_acc" -> state' !! k = state !! k)
    ∧ isdir name f' = true
    ∧ files f' !! filename = Some (TorchFile state')
    ∧ files f' !! best_f
      = (if is_best then Some (TorchFile state') else files f !! best_f)
    ∧ (∀ p, p ≠ filename -> p ≠ best_f -> files f' !! p = files f !! p).
Proof.
  intros Harch Hacc Hep Hfa Hm1 Hfe Hdir filename best_f state'.
  pose proof (checkpoint_path_not_best name acc_s epoch_s) as Hne.
  fold filename best_f in Hne.
  set (f1 := if isdir name f then f else add_dir name f).
  set (f2 := write_file filename (TorchFile state') f1).
  exists (if is_best then write_file best_f (TorchFile state') f2 else f2).
  assert (Hfiles1 : files f1 = files f).
  { subst f1. now destruct (isdir name f). }
  assert (Hdir1 : isdir name f1 = true).
  { subst f1. destruct (isdir name f) eqn:E; [exact E|].
    unfold isdir, add_dir. cbn [dirs].
    apply bool_decide_eq_true. set_solver. }
  split_and!.
  - unfold save_checkpoint, sc_getitem, sc_pop, sc_getitem.
    step_monad. cbn [fst snd]. rewrite Harch. cbv beta iota.
    rewrite (ensure_dir_ok name state f Hdir). fold f1.
    unfold sc_set_fs, sc_fs. step_monad.
    cbn [fst snd]. rewrite Hacc. cbn [fst snd].
    rewrite lookup_delete_ne by discriminate. rewrite Hep. cbv beta iota.
    rewrite Hm1, Hfa, Hfe. fold filename best_f state' f2.
    destruct is_best; [|reflexivity].
    cbn [snd]. unfold copyfile.
    destruct (String.eqb_spec filename best_f) as [E|_]; [contradiction|].
    subst f2. unfold write_file at 1. cbn [files].
    now rewrite lookup_insert_eq.
  - apply lookup_delete_eq.
  - intros k Hk. now apply lookup_delete_ne.
  - destruct is_best; exact Hdir1.
  - destruct is_best; subst f2; unfold write_file; cbn [files].
    + rewrite lookup_insert_ne by (intros E; apply Hne; now symmetry).
      apply lookup_insert_eq.
    + apply lookup_insert_eq.
  - destruct is_best; subst f2; unfold write_file; cbn [files].
    + apply lookup_insert_eq.
    + rewrite lookup_insert_ne by exact Hne. now rewrite Hfiles1.
  - intros p Hp1 Hp2.
    destruct is_best; subst f2; unfold write_file; cbn [files];
      rewrite ?lookup_insert_ne by congruence; now rewrite Hfiles1.
Qed.

Lemma save_checkpoint_pops_cur_acc_witness :
  let filename := "resnet18/resnet18_acc_75.00_epoch_0.pth.tar" in
  let best_f := "resnet18/model_best.pth.tar" in
  let state' := delete "cur_acc" save_state in
  ∃ f' : FS,
    save_checkpoint env_ok true (save_state, fs_empty) = (Ok tt, (state', f'))
    ∧ state' !! "cur_acc" = None
    ∧ (∀ k, k ≠ "cur_acc" -> state' !! k = save_state !! k)
    ∧ isdir "resnet18" f' = true
    ∧ files f' !! filename = Some (TorchFile state')
    ∧ files f' !! best_f = Some (TorchFile state')
    ∧ (∀ p, p ≠ filename -> p ≠ best_f ->
         files f' !! p = files fs_empty !! p).
Proof.
  apply (save_checkpoint_pops_cur_acc env_ok save_state true fs_empty
           "resnet18" "75.00" "0" (PNum (75 # 1)) (PInt 1) (PInt 0));
    reflexivity.
Defined.

(** Without [is_best] only the checkpoint itself is written. *)
Example save_checkpoint_not_best :
  save_checkpoint env_ok false (save_state, fs_empty)
  = (Ok tt,
     (delete "cur_acc" save_state,
      {| dirs := {["resnet18"]} ∪ ∅;
         files := {[ "resnet18/resnet18_acc_75.00_epoch_0.pth.tar"
                     := TorchFile (delete "cur_acc" save_state) ]} |})).
Proof. reflexivity. Qed.

(** A state without ['cur_acc'] raises [KeyError], after the directory
    was made. *)
Example save_checkpoint_missing_acc :
  save_checkpoint env_ok true (delete "cur_acc" save_state, fs_empty)
  = (Raise (KeyError "cur_acc"),
     (delete "cur_acc" save_state,
      {| dirs := {["resnet18"]} ∪ ∅; files := ∅ |})).
Proof. reflexivity. Qed.

(* ================================================================== *)
(** * Rules for [triple] *)

Section TripleRules.
Context {A B : Type}.
Variable P : event -> Prop.

Lemma triple_ret (pre : State -> Prop) (post : A -> State -> Prop) (a : A) :
  (∀ s, pre s -> post a s) -> triple pre (mret a) P post.
Proof.
  intros H s Hs. exists []. cbn. rewrite app_nil_r.
  split_and!; [reflexivity | constructor |].
  intros a' [= <-]. now apply H.
Qed.

Lemma triple_raise (pre : State -> Prop) (post : A -> State -> Prop) (e : exn) :
  triple pre (raise e) P post.
Proof.
  intros s Hs. exists []. cbn. rewrite app_nil_r.
  split_and!; [reflexivity | constructor | discriminate].
Qed.

Lemma triple_lift (pre : State -> Prop) (post : A -> State -> Prop)
    (r : result A) :
  (∀ a s, r = Ok a -> pre s -> post a s) -> triple pre (lift r) P post.
Proof.
  intros H s Hs. exists []. cbn. rewrite app_nil_r.
  split_and!; [reflexivity | constructor |].
  intros a Ha. now apply H.
Qed.

Lemma triple_bind (pre : State -> Prop) (mid : A -> State -> Prop)
    (post : B -> State -> Prop) (c : M A) (k : A -> M B) :
  triple pre c P mid ->
  (∀ a, triple (mid a) (k a) P post) ->
  triple pre (c ≫= k) P post.
Proof.
  intros Hc Hk s Hs.
  destruct (Hc s Hs) as (evs1 & Ht1 & HP1 & Hpost1).
  unfold mbind, ST_bind.
  destruct (c s) as [[a|e] s1] eqn:E; cbn [fst snd] in *.
  - destruct (Hk a s1 (Hpost1 a eq_refl)) as (evs2 & Ht2 & HP2 & Hpost2).
    exists (evs1 ++ evs2). rewrite Ht2, Ht1, app_assoc.
    split_and!; [reflexivity | now apply Forall_app | exact Hpost2].
  - exists evs1. split_and!; [exact Ht1 | exact HP1 | discriminate].
Qed.

Lemma triple_weaken (pre pre' : State -> Prop) (post post' : A -> State -> Prop)
    (c : M A) :
  triple pre c P post ->
  (∀ s, pre' s -> pre s) ->
  (∀ a s, post a s -> post' a s) ->
  triple pre' c P post'.
Proof.
  intros Hc Hpre Hpost s Hs.
  destruct (Hc s (Hpre s Hs)) as (evs & Ht & HP & Hp).
  exists evs. split_and!; [exact Ht | exact HP |].
  intros a Ha. apply Hpost, Hp, Ha.
Qed.

(** Reading the state: the continuation runs in the state it was given. *)
Lemma triple_get (pre : State -> Prop) (post : B -> State -> Prop)
    (k : State -> M B) :
  (∀ s0, pre s0 -> triple (fun s => s = s0) (k s0) P post) ->
  triple pre (get ≫= k) P post.
Proof.
  intros H s Hs. unfold mbind, ST_bind, get.
  exact (H s Hs s eq_refl).
Qed.

End TripleRules.

Section TripleRulesUnit.
Variable P : event -> Prop.

(** A state update that leaves the trace alone. *)
Lemma triple_modify (pre : State -> Prop) (post : unit -> State -> Prop)
    (f : State -> State) :
  (∀ s, trace (f s) = trace s) ->
  (∀ s, pre s -> post tt (f s)) ->
  triple pre (modify f) P post.
Proof.
  intros Hf H s Hs. exists []. cbn. rewrite app_nil_r, Hf.
  split_and!; [reflexivity | constructor |].
  intros [] _. now apply H.
Qed.

(** Recording an event. *)
Lemma triple_log (pre : State -> Prop) (post : unit -> State -> Prop)
    (e : event) :
  (∀ s, pre s -> P e) ->
  (∀ s, pre s -> post tt (log e s)) ->
  triple pre (modify (log e)) P post.
Proof.
  intros He H s Hs. exists [e]. cbn.
  split_and!; [reflexivity | |].
  - constructor; [now apply (He s) | constructor].
  - intros [] _. now apply H.
Qed.

(** A loop whose body keeps an invariant. *)
Lemma triple_for_each {X} (inv : State -> Prop) (xs : list X)
    (body : X -> M unit) :
  (∀ x, triple inv (body x) P (fun _ => inv)) ->
  triple inv (for_each xs body) P (fun _ => inv).
Proof.
  intros Hbody. induction xs as [|x xs IH]; cbn [for_each].
  - apply triple_ret. auto.
  - eapply triple_bind; [apply Hbody|]. intros u. exact IH.
Qed.

End TripleRulesUnit.

(* ================================================================== *)
(** * Events a piece of driver code can emit *)

Section Emits.
Variable P : event -> Prop.

Lemma emits_ret {A} (a : A) : emits (mret a) P.
Proof. apply triple_ret. auto. Qed.

Lemma emits_raise {A} (e : exn) : emits (raise (A := A) e) P.
Proof. apply triple_raise. Qed.

Lemma emits_lift {A} (r : result A) : emits (lift r) P.
Proof. apply triple_lift. auto. Qed.

Lemma emits_bind {A B} (c : M A) (k : A -> M B) :
  emits c P -> (∀ a, emits (k a) P) -> emits (c ≫= k) P.
Proof. intros Hc Hk. eapply triple_bind; [exact Hc | exact Hk]. Qed.

Lemma emits_get {B} (k : State -> M B) :
  (∀ s, emits (k s) P) -> emits (get ≫= k) P.
Proof.
  intros H. apply triple_get. intros s0 _.
  apply (triple_weaken P (fun _ => True) _ (fun _ _ => True) _ _ (H s0));
    intros; exact I.
Qed.

Lemma emits_modify (f : State -> State) :
  (∀ s, trace (f s) = trace s) -> emits (modify f) P.
Proof. intros H. apply triple_modify; auto. Qed.

Lemma emits_log (e : event) : P e -> emits (modify (log e)) P.
Proof. intros H. apply triple_log; auto. Qed.

Lemma emits_for_each {X} (xs : list X) (body : X -> M unit) :
  (∀ x, emits (body x) P) -> emits (for_each xs body) P.
Proof. intros H. apply triple_for_each. exact H. Qed.

(** From a triple to what it says about the trace alone. *)
Lemma triple_emits {A} (pre : State -> Prop) (post : A -> State -> Prop)
    (c : M A) (s : State) :
  triple pre c P post -> pre s ->
  ∃ evs, trace (snd (c s)) = trace s ++ evs ∧ Forall P evs.
Proof.
  intros H Hs. destruct (H s Hs) as (evs & Ht & HP & _). now exists evs.
Qed.

End Emits.

(** The driver's own functions, unfolded on demand. *)
Create HintDb driver.
#[local] Hint Unfold
  model_eval model_train enable_calibration enable_quantization forward
  convert_merge_bn calibrate torch_load getitem load_state_dict
  load_optimizer load_checkpoint resume_or_calibrate quantize
  gen_sg save_sg read_json gen_quant_sg export_graphs fold_bn
  validate train epoch_body train_loop evaluate_path after_quantize : driver.

(** Decomposes an [emits] goal along the structure of the code; events
    for which the predicate computes to [True] are discharged. *)
Ltac emits_step :=
  lazymatch goal with
  | |- emits (mret _) _ => apply emits_ret
  | |- emits (raise _) _ => apply emits_raise
  | |- emits (lift _) _ => apply emits_lift
  | |- emits (get ≫= _) _ => apply emits_get; intros ?
  | |- emits (modify (log _)) _ =>
      apply emits_log;
      first [exact I | reflexivity | left; reflexivity | right; reflexivity]
  | |- emits (modify _) _ => apply emits_modify; intros ?; reflexivity
  | |- emits (for_each _ _) _ => apply emits_for_each; intros ?
  | |- emits (_ ≫= _) _ => apply emits_bind; [|intros ?]
  | |- emits (match ?x with _ => _ end) _ => destruct x
  | |- emits ((fun _ => _) _) _ => cbv beta
  | |- emits _ _ => progress autounfold with driver
  end.

Ltac emits_auto := repeat emits_step.

(** Events that carry no obligation: the code that emits only these
    satisfies any predicate that holds of them. *)
Section PlainEvents.
Variable P : event -> Prop.
Hypothesis P_forward : ∀ b, P (EvForward b).
Hypothesis P_validate : ∀ m, P (EvValidate m).
Hypothesis P_train : ∀ e, P (EvTrain e).
Hypothesis P_save : ∀ p b, P (EvSaveCheckpoint p b).

Lemma emits_forward (b : Z) : emits (forward b) P.
Proof.
  unfold forward. apply emits_bind; [apply emits_log, P_forward|].
  intros _. apply emits_modify. reflexivity.
Qed.

Lemma emits_meter_step (m : Meter.val_meters Q) (b : Meter.batch_result Q) :
  emits (meter_step m b) P.
Proof.
  intros s _. exists []. rewrite app_nil_r. unfold meter_step.
  destruct (Meter.validate_step _ _ _ m b) as [[[]|e] m']; cbn;
    split_and!; try reflexivity; try constructor; auto.
Qed.

Lemma emits_validate_batches (bs : list (Meter.batch_result Q)) :
  ∀ i m, emits (validate_batches i bs m) P.
Proof.
  induction bs as [|b bs IH]; intros i m; cbn [validate_batches].
  - apply emits_ret.
  - apply emits_bind; [apply emits_forward|]. intros _.
    apply emits_bind; [apply emits_meter_step|]. intros m'. apply IH.
Qed.

Lemma emits_validate (env : Env) : emits (validate env) P.
Proof.
  unfold validate, model_eval.
  apply emits_bind; [apply emits_modify; reflexivity|]. intros _.
  apply emits_get. intros s.
  apply emits_bind; [apply emits_log, P_validate|]. intros _.
  apply emits_bind; [apply emits_validate_batches|]. intros m.
  apply emits_ret.
Qed.

Lemma emits_train (env : Env) (epoch : Z) : emits (train env epoch) P.
Proof.
  unfold train, model_train.
  apply emits_bind; [apply emits_modify; reflexivity|]. intros _.
  apply emits_bind; [apply emits_log, P_train|]. intros _.
  apply emits_bind; [apply emits_for_each, emits_forward|]. intros _.
  apply emits_modify. reflexivity.
Qed.

Lemma emits_call_save_checkpoint (env : Env) (d : gmap string pyval)
    (is_best : bool) :
  emits (call_save_checkpoint env d is_best) P.
Proof.
  intros s _. exists []. rewrite app_nil_r. unfold call_save_checkpoint.
  destruct (save_checkpoint env is_best (d, fs s)) as [r [d' f']]; cbn.
  split_and!; [reflexivity | constructor | auto].
Qed.

Lemma emits_train_loop (env : Env) (args : Args) : emits (train_loop env args) P.
Proof.
  unfold train_loop. apply emits_get. intros s.
  apply emits_bind; [apply emits_lift|]. intros es.
  apply emits_for_each. intros epoch. unfold epoch_body.
  apply emits_bind; [apply emits_train|]. intros _.
  apply emits_bind; [apply emits_validate|]. intros acc1.
  apply emits_get. intros s1.
  apply emits_bind; [apply emits_lift|]. intros best.
  apply emits_bind; [apply emits_modify; reflexivity|]. intros _.
  apply emits_get. intros s2.
  apply emits_bind; [apply emits_log, P_save|]. intros _.
  apply emits_call_save_checkpoint.
Qed.

End PlainEvents.

(* ================================================================== *)
(** * Batch-norm folding happens in evaluation mode *)

Section MergeBn.
Variable env : Env.
Variable args : Args.

Local Abbreviation P := merge_bn_in_eval_mode.

Lemma emits_resume_or_calibrate : emits (resume_or_calibrate env args) P.
Proof. unfold resume_or_calibrate. emits_auto. Qed.

Lemma emits_export_graphs : emits (export_graphs env args) P.
Proof. unfold export_graphs. emits_auto. Qed.

Lemma all_quantized_set_mode (ns : list FakeQuantNode) :
  Forall (fun n => mode n = quantized) (List.map (set_mode quantized) ns).
Proof. apply List.Forall_map, List.Forall_forall. reflexivity. Qed.

(** After line 302 every node is quantized, if quantization is on. *)
Lemma quantize_all_quantized (Q : event -> Prop) :
  (∀ ns, Q (EvEnableQuantization ns)) ->
  triple (fun _ => True) (quantize args) Q
    (fun _ s => quant args = true -> all_quantized (model s)).
Proof.
  intros HQ. unfold quantize. destruct (quant args).
  - intros s _. exists [EvEnableQuantization (nodes (model s))].
    split_and!; [reflexivity | constructor; [apply HQ | constructor] |].
    intros _ _ _. apply all_quantized_set_mode.
  - apply triple_ret. discriminate.
Qed.

(** [convert_merge_bn(model.eval())] on a quantized model. *)
Lemma fold_bn_in_eval_mode :
  triple (fun s => all_quantized (model s)) fold_bn P
    (fun _ s => all_quantized (model s)).
Proof.
  intros s Hq.
  exists [EvConvertMergeBn (set_training false (model s))].
  split_and!; [reflexivity | | intros _ _; exact Hq].
  constructor; [|constructor]. split; [reflexivity | exact Hq].
Qed.

Lemma fold_bn_first_event (s : State) :
  fold_bn s
  = (Ok tt,
     with_model set_bn_merged
       (log (EvConvertMergeBn (set_training false (model s)))
          (with_model (set_training false) s))).
Proof. reflexivity. Qed.

End MergeBn.

Lemma emits_any_pre {A} (P : event -> Prop) (pre : State -> Prop) (c : M A) :
  emits c P -> triple pre c P (fun _ _ => True).
Proof.
  intros H. apply (triple_weaken P _ _ _ _ _ H); intros; exact I.
Qed.

Lemma deploy_path_in_eval_mode (env : Env) (args : Args) :
  triple (fun s => all_quantized (model s)) (deploy_path env args)
    merge_bn_in_eval_mode (fun _ _ => True).
Proof.
  unfold deploy_path.
  eapply triple_bind; [apply fold_bn_in_eval_mode|]. intros u.
  apply emits_any_pre, emits_export_graphs.
Qed.

Lemma evaluate_path_in_eval_mode (env : Env) (args : Args) :
  triple (fun s => quant args = true -> all_quantized (model s))
    (evaluate_path env args) merge_bn_in_eval_mode (fun _ _ => True).
Proof.
  unfold evaluate_path.
  apply (triple_bind _ _ (fun _ _ => True)).
  - destruct (quant args).
    + apply (triple_weaken _ _ _ _ _ _ fold_bn_in_eval_mode).
      * intros s H. now apply H.
      * intros; exact I.
    + apply triple_ret. intros; exact I.
  - intros u. apply emits_any_pre.
    apply emits_bind; [apply emits_validate; intros; exact I|].
    intros q. apply emits_ret.
Qed.

(** C5: in every run of [main_worker], whatever the command line, the
    data and the outcome of the external calls, each call of
    [convert_merge_bn] is handed a model in evaluation mode (it is the
    value of [model.eval()]) none of whose nodes is calibrating: they are
    all quantized.  The deploy path makes that call first thing, and so
    does the evaluate path when quantization is on. *)
Theorem merge_bn_only_in_eval_mode (env : Env) (args : Args) (s : State) :
  (∃ evs, trace (snd (main_worker env args s)) = trace s ++ evs
          ∧ Forall merge_bn_in_eval_mode evs)
  ∧ (∃ rest, trace (snd (deploy_path env args s))
             = trace s
               ++ EvConvertMergeBn (set_training false (model s)) :: rest)
  ∧ (∃ rest, trace (snd (evaluate_path env args s))
             = trace s
               ++ (if quant args
                   then [EvConvertMergeBn (set_training false (model s))]
                   else [])
               ++ rest).
Proof.
  split_and!.
  - apply (triple_emits _ (fun _ => True) (fun _ _ => True)); [|exact I].
    unfold main_worker.
    eapply triple_bind; [apply emits_resume_or_calibrate|]. intros u.
    cbv beta.
    apply (triple_bind _ _
             (fun _ s => quant args = true -> all_quantized (model s))).
    { apply quantize_all_quantized. intros ns. exact I. }
    intros u'. cbv beta. unfold after_quantize.
    destruct (quant args) eqn:Hq; cbn [andb].
    + destruct (deploy args).
      * apply (triple_weaken _ _ _ _ _ _ (deploy_path_in_eval_mode env args));
          auto.
      * destruct (evaluate args).
        -- pose proof (evaluate_path_in_eval_mode env args) as H.
           rewrite Hq in H.
           apply (triple_weaken _ _ _ _ _ _ H); auto.
        -- apply emits_any_pre, emits_train_loop; intros; exact I.
    + destruct (evaluate args).
      * pose proof (evaluate_path_in_eval_mode env args) as H.
        rewrite Hq in H.
        apply (triple_weaken _ _ _ _ _ _ H); auto.
      * apply emits_any_pre, emits_train_loop; intros; exact I.
  - unfold deploy_path, mbind, ST_bind. rewrite fold_bn_first_event.
    destruct (triple_emits merge_bn_in_eval_mode _ _ _
                (with_model set_bn_merged
                   (log (EvConvertMergeBn (set_training false (model s)))
                      (with_model (set_training false) s)))
                (emits_export_graphs env args) I) as (evs & Ht & _).
    exists evs. rewrite Ht. cbn [trace with_model log].
    now rewrite <- app_assoc.
  - unfold evaluate_path.
    assert (Hrest : emits (validate env ≫= fun _ : Q => mret tt)
                      merge_bn_in_eval_mode).
    { apply emits_bind; [apply emits_validate; intros; exact I|].
      intros q. apply emits_ret. }
    unfold mbind at 1. unfold ST_bind at 1.
    destruct (quant args).
    + rewrite fold_bn_first_event.
      destruct (triple_emits _ _ _ _
                  (with_model set_bn_merged
                     (log (EvConvertMergeBn (set_training false (model s)))
                        (with_model (set_training false) s)))
                  Hrest I) as (evs & Ht & _).
      exists evs. rewrite Ht. cbn [trace with_model log].
      now rewrite <- app_assoc.
    + destruct (triple_emits _ _ _ _ s Hrest I) as (evs & Ht & _).
      exists evs. cbn. exact Ht.
Qed.

(* ================================================================== *)
(** * Code that keeps an invariant *)

Section Keeps.
Variable P : event -> Prop.
Variable inv : State -> Prop.

Lemma keeps_ret {A} (a : A) : keeps inv (mret a) P.
Proof. apply triple_ret. auto. Qed.

Lemma keeps_raise {A} (e : exn) : keeps inv (raise (A := A) e) P.
Proof. apply triple_raise. Qed.

Lemma keeps_lift {A} (r : result A) : keeps inv (lift r) P.
Proof. apply triple_lift. auto. Qed.

Lemma keeps_bind {A B} (c : M A) (k : A -> M B) :
  keeps inv c P -> (∀ a, keeps inv (k a) P) -> keeps inv (c ≫= k) P.
Proof. intros Hc Hk. eapply triple_bind; [exact Hc | exact Hk]. Qed.

Lemma keeps_get {B} (k : State -> M B) :
  (∀ s, inv s -> keeps inv (k s) P) -> keeps inv (get ≫= k) P.
Proof.
  intros H s Hs. unfold mbind, ST_bind, get. exact (H s Hs s Hs).
Qed.

Lemma keeps_modify (f : State -> State) :
  (∀ s, trace (f s) = trace s) -> (∀ s, inv s -> inv (f s)) ->
  keeps inv (modify f) P.
Proof. intros H1 H2. apply triple_modify; auto. Qed.

Lemma keeps_log (e : event) :
  (∀ s, inv s -> P e) -> (∀ s, inv s -> inv (log e s)) ->
  keeps inv (modify (log e)) P.
Proof. intros H1 H2. apply triple_log; auto. Qed.

End Keeps.

(** Decomposes a [keeps] goal along the structure of the code. *)
Ltac keeps_step :=
  lazymatch goal with
  | |- keeps _ (mret _) _ => apply keeps_ret
  | |- keeps _ (raise _) _ => apply keeps_raise
  | |- keeps _ (lift _) _ => apply keeps_lift
  | |- keeps _ (get ≫= _) _ => apply keeps_get; intros ? ?
  | |- keeps _ (modify (log _)) _ =>
      apply keeps_log; [intros ? ?; cbn; exact I | intros ? ?; assumption]
  | |- keeps _ (modify _) _ =>
      apply keeps_modify; [intros ?; reflexivity | intros ? ?; assumption]
  | |- keeps _ (_ ≫= _) _ => apply keeps_bind; [|intros ?]
  | |- keeps _ (match ?x with _ => _ end) _ => destruct x
  | |- keeps _ ((fun _ => _) _) _ => cbv beta
  | |- keeps _ _ _ => progress autounfold with driver
  end.

(* ================================================================== *)
(** * Quantization without calibration *)

Section Uncalibrated.
Variable env : Env.
Variable args : Args.
Variable ns0 : list FakeQuantNode.

(** The nodes are the ones the model started with. *)
Local Abbreviation same_nodes := (fun s : State => nodes (model s) = ns0).

Lemma load_checkpoint_keeps_nodes :
  keeps same_nodes (load_checkpoint env args) uncalibrated.
Proof. unfold load_checkpoint. repeat keeps_step. Qed.

Lemma resume_keeps_nodes :
  resume args ≠ "" ->
  keeps same_nodes (resume_or_calibrate env args) uncalibrated.
Proof.
  intros Hres. unfold resume_or_calibrate.
  destruct (String.eqb_spec (resume args) "") as [E|_]; [contradiction|].
  cbn [negb]. apply keeps_get. intros s Hs.
  destruct (isfile (resume args) (fs s)).
  - apply load_checkpoint_keeps_nodes.
  - apply keeps_ret.
Qed.

End Uncalibrated.

Lemma set_mode_twice (a b : Mode) (ns : list FakeQuantNode) :
  List.map (set_mode a) (List.map (set_mode b) ns) = List.map (set_mode a) ns.
Proof. rewrite List.map_map. reflexivity. Qed.

Lemma nothing_observed_set_mode (a : Mode) (ns : list FakeQuantNode) :
  nothing_observed ns -> nothing_observed (List.map (set_mode a) ns).
Proof.
  unfold nothing_observed. intros H. apply List.Forall_map.
  eapply List.Forall_impl; [|exact H]. intros n Hn. exact Hn.
Qed.

(** The monad law that lets the first two stages of [main_worker] be
    taken together. *)
Lemma bind_assoc {S A B C} (c : ST S A) (k : A -> ST S B) (h : B -> ST S C)
    (s : S) :
  ((c ≫= k) ≫= h) s = (c ≫= fun a => k a ≫= h) s.
Proof.
  unfold mbind, ST_bind. destruct (c s) as [[a|e] s1]; reflexivity.
Qed.

Lemma enable_quantization_eq (s : State) :
  enable_quantization s
  = (Ok tt,
     with_model (set_nodes (List.map (set_mode quantized) (nodes (model s))))
       (log (EvEnableQuantization (nodes (model s))) s)).
Proof. reflexivity. Qed.

(** C3: [enable_quantization] does not fail on nodes that have observed
    no batch: it returns them quantized, with their (default) statistics
    untouched, also straight after [enable_calibration].  When
    [args.resume] is set and quantization is on, [main_worker] enables no
    calibration and runs no calibration batch before line 302; if nothing
    was observed before, [enable_quantization] is called on nodes that
    have observed nothing, and it goes through: the first two stages
    raise only if loading the checkpoint raised. *)
Theorem enable_quantization_without_calibration
    (env : Env) (args : Args) (s : State) :
  resume args ≠ "" ->
  quant args = true ->
  nothing_observed (nodes (model s)) ->
  let ns := nodes (model s) in
  let quantized_ns := List.map (set_mode quantized) ns in
  let stages := resume_or_calibrate env args ≫= fun _ => quantize args in
  enable_quantization_nodes ns = Ok quantized_ns
  ∧ enable_quantization_nodes (enable_calibration_nodes ns) = Ok quantized_ns
  ∧ nothing_observed quantized_ns
  ∧ Forall (fun n => mode n = quantized) quantized_ns
  ∧ main_worker env args s = (stages ≫= fun _ => after_quantize env args) s
  ∧ (∃ evs, trace (snd (stages s)) = trace s ++ evs ∧ Forall uncalibrated evs)
  ∧ (∀ s1, resume_or_calibrate env args s = (Ok tt, s1) ->
       nodes (model s1) = ns
       ∧ stages s
         = (Ok tt, with_model (set_nodes quantized_ns)
                     (log (EvEnableQuantization ns) s1)))
  ∧ (∀ e s1, resume_or_calibrate env args s = (Raise e, s1) ->
       stages s = (Raise e, s1)).
Proof.
  intros Hres Hq Hobs ns quantized_ns stages.
  pose proof (resume_keeps_nodes env args ns Hres s eq_refl)
    as (evs & Ht & HP & Hpost).
  split_and!.
  - reflexivity.
  - unfold enable_quantization_nodes, enable_calibration_nodes.
    now rewrite set_mode_twice.
  - now apply nothing_observed_set_mode.
  - apply all_quantized_set_mode.
  - unfold main_worker. symmetry. apply bind_assoc.
  - subst stages. unfold mbind, ST_bind, quantize. rewrite Hq.
    destruct (resume_or_calibrate env args s) as [[[]|e] s1] eqn:E;
      cbn [fst snd] in *.
    + pose proof (Hpost tt eq_refl) as Hn.
      exists (evs ++ [EvEnableQuantization (nodes (model s1))]).
      rewrite enable_quantization_eq. cbn [snd trace with_model log].
      rewrite Ht, <- app_assoc. split; [reflexivity|].
      apply Forall_app. split; [exact HP|].
      constructor; [|constructor]. cbn. now rewrite Hn.
    + exists evs. split; [exact Ht | exact HP].
  - intros s1 E. rewrite E in Hpost. cbn [fst snd] in Hpost.
    pose proof (Hpost tt eq_refl) as Hn. split; [exact Hn|].
    subst stages. unfold mbind, ST_bind, quantize. rewrite E, Hq.
    rewrite enable_quantization_eq. subst quantized_ns. now rewrite Hn.
  - intros e s1 E. subst stages. unfold mbind, ST_bind. now rewrite E.
Qed.

Lemma enable_quantization_without_calibration_witness :
  let s := state_of (fs_with_checkpoint wrapped_state_dict) in
  let ns := nodes (model s) in
  let quantized_ns := List.map (set_mode quantized) ns in
  let stages :=
    resume_or_calibrate env_ok args_resume ≫= fun _ => quantize args_resume in
  enable_quantization_nodes ns = Ok quantized_ns
  ∧ enable_quantization_nodes (enable_calibration_nodes ns) = Ok quantized_ns
  ∧ nothing_observed quantized_ns
  ∧ Forall (fun n => mode n = quantized) quantized_ns
  ∧ main_worker env_ok args_resume s
    = (stages ≫= fun _ => after_quantize env_ok args_resume) s
  ∧ (∃ evs, trace (snd (stages s)) = trace s ++ evs ∧ Forall uncalibrated evs)
  ∧ (∀ s1, resume_or_calibrate env_ok args_resume s = (Ok tt, s1) ->
       nodes (model s1) = ns
       ∧ stages s
         = (Ok tt, with_model (set_nodes quantized_ns)
                     (log (EvEnableQuantization ns) s1)))
  ∧ (∀ e s1, resume_or_calibrate env_ok args_resume s = (Raise e, s1) ->
       stages s = (Raise e, s1)).
Proof.
  apply (enable_quantization_without_calibration env_ok args_resume
           (state_of (fs_with_checkpoint wrapped_state_dict))).
  - discriminate.
  - reflexivity.
  - repeat constructor.
Defined.

(** The resumed run end to end: the checkpoint is loaded with its keys
    stripped, no batch is observed, the nodes end up quantized, and the
    evaluation returns the accuracy of the one batch. *)
Example resumed_run_succeeds :
  let s := state_of (fs_with_checkpoint wrapped_state_dict) in
  fst (main_worker env_ok args_resume s) = Ok tt
  ∧ nodes (model (snd (main_worker env_ok args_resume s)))
    = [ {| mode := quantized; observed := 0 |};
        {| mode := quantized; observed := 0 |} ]
  ∧ trace (snd (main_worker env_ok args_resume s))
    = [ EvLoadStateDict [("x", 1%Z); ("fc.weight", 2%Z)];
        EvLoadOptimizer 5;
        EvEnableQuantization fresh_nodes;
        EvConvertMergeBn
          {| training := false;
             nodes := List.map (set_mode quantized) fresh_nodes;
             params := [("x", 1%Z); ("fc.weight", 2%Z)];
             bn_merged := false; on_cpu := false; epochs_trained := 0 |};
        EvValidate
          {| training := false;
             nodes := List.map (set_mode quantized) fresh_nodes;
             params := [("x", 1%Z); ("fc.weight", 2%Z)];
             bn_merged := true; on_cpu := false; epochs_trained := 0 |};
        EvForward 0 ].
Proof. cbv zeta. split_and!; reflexivity. Qed.

(* ================================================================== *)
(** * The names of the deploy artifacts *)

Lemma append_cons (c : ascii) (a b : string) :
  (String c a ++ b)%string = String c (a ++ b)%string.
Proof. reflexivity. Qed.

Lemma append_nil_l (b : string) : ("" ++ b)%string = b.
Proof. reflexivity. Qed.

Lemma has_char_cons_false (c d : ascii) (s : string) :
  has_char c (String d s) = false -> Ascii.eqb c d = false ∧ has_char c s = false.
Proof. cbn. apply orb_false_iff. Qed.

Lemma no_sep_endswith (a : string) :
  has_char "/" a = false -> endswith_sep a = false.
Proof.
  induction a as [|c a IH]; [reflexivity|].
  intros H. apply has_char_cons_false in H as [Hc Ha].
  cbn [endswith_sep]. destruct a as [|d a']; [|now apply IH].
  now rewrite Ascii.eqb_sym.
Qed.

Lemma no_sep_startswith (a b : string) :
  a ≠ "" -> has_char "/" a = false -> startswith "/" (a ++ b)%string = false.
Proof.
  destruct a as [|c a]; [congruence|]. intros _ H.
  apply has_char_cons_false in H as [Hc _].
  rewrite append_cons. cbn [startswith]. now rewrite Hc.
Qed.

(** [os.path.join] of a plain directory name and a file name that starts
    with it. *)
Lemma path_join_plain (a b : string) :
  a ≠ "" -> has_char "/" a = false ->
  path_join a (a ++ b)%string = (a ++ "/" ++ a ++ b)%string.
Proof.
  intros Hne Hsep. unfold path_join.
  rewrite (no_sep_startswith a b Hne Hsep), (no_sep_endswith a Hsep).
  destruct (String.eqb_spec a "") as [E|_]; [contradiction|reflexivity].
Qed.

(** No occurrence of [.sg] starts inside [a] when [a] is followed by
    [rest], provided [a] has none and none straddles the border. *)
Lemma startswith_sg_app (a rest : string) :
  a ≠ "" ->
  startswith ".sg" a = false ->
  startswith "sg" rest = false ->
  startswith "g" rest = false ->
  startswith ".sg" (a ++ rest)%string = false.
Proof.
  intros Hne Ha Hsg Hg.
  destruct a as [|c1 a]; [congruence|].
  rewrite append_cons. cbn [startswith] in Ha |- *.
  destruct (Ascii.eqb "." c1); [|reflexivity].
  destruct a as [|c2 a]; [exact Hsg|].
  rewrite append_cons. cbn [startswith] in Ha |- *.
  destruct (Ascii.eqb "s" c2); [|reflexivity].
  destruct a as [|c3 a]; [exact Hg|].
  rewrite append_cons. cbn [startswith] in Ha |- *.
  destruct (Ascii.eqb "g" c3); [discriminate Ha | reflexivity].
Qed.

Lemma replace_sg_skips (new a rest : string) :
  contains ".sg" a = false ->
  startswith "sg" rest = false ->
  startswith "g" rest = false ->
  replace_from ".sg" new 0 (a ++ rest)%string
  = (a ++ replace_from ".sg" new 0 rest)%string.
Proof.
  intros Ha Hsg Hg. induction a as [|c a IH]; [reflexivity|].
  cbn [contains] in Ha. apply orb_false_iff in Ha as [Hhere Hlater].
  pose proof (startswith_sg_app (String c a) rest ltac:(discriminate)
                Hhere Hsg Hg) as Hno.
  rewrite !append_cons in *. cbn [replace_from].
  rewrite Hno. now rewrite IH.
Qed.

(** Line 328: on the path of the float graph, [replace('.sg',
    '_8bit.sg')] only touches the extension. *)
Lemma replace_extension (a : string) :
  contains ".sg" a = false ->
  replace ".sg" "_8bit.sg" (a ++ "/" ++ a ++ ".sg")%string
  = (a ++ "/" ++ a ++ "_8bit.sg")%string.
Proof.
  intros Ha. unfold replace.
  rewrite (replace_sg_skips _ a _ Ha) by reflexivity.
  f_equal. rewrite append_cons, append_nil_l.
  cbn [replace_from startswith Ascii.eqb Bool.eqb]. cbv iota.
  f_equal.
  rewrite (replace_sg_skips _ a _ Ha) by reflexivity.
  reflexivity.
Qed.

Section DeployNames.
Variable args : Args.
Hypothesis arch_nonempty : arch args ≠ "".
Hypothesis arch_no_sep : has_char "/" (arch args) = false.
Hypothesis arch_no_ext : contains ".sg" (arch args) = false.

Lemma export_sg_file_eq :
  export_sg_file args = (arch args ++ "/" ++ arch args ++ ".sg")%string.
Proof. unfold export_sg_file, output_dir. now apply path_join_plain. Qed.

Lemma clip_range_file_eq :
  clip_range_file args
  = (arch args ++ "/" ++ arch args ++ "_act_clip.json")%string.
Proof. unfold clip_range_file, output_dir. now apply path_join_plain. Qed.

Lemma export_8bit_file_eq :
  export_8bit_file args
  = (arch args ++ "/" ++ arch args ++ "_8bit.sg")%string.
Proof.
  unfold export_8bit_file. rewrite export_sg_file_eq.
  now apply replace_extension.
Qed.

Lemma deploy_paths_distinct :
  export_sg_file args ≠ clip_range_file args
  ∧ export_8bit_file args ≠ clip_range_file args
  ∧ export_8bit_file args ≠ export_sg_file args.
Proof.
  rewrite export_sg_file_eq, clip_range_file_eq, export_8bit_file_eq.
  split_and!; intros H;
    do 3 apply append_cancel_l in H; discriminate H.
Qed.

End DeployNames.

(** The deploy path up to the point where the quantized graph is
    derived: the float graph and the clip ranges are on disk. *)
Lemma export_graphs_first_half
    (env : Env) (args : Args) (s : State) (sg : SG) (clip : ClipRanges) :
  export_sg_file args ≠ clip_range_file args ->
  gen_sg_from_pytorch env (set_training false (set_on_cpu (model s)))
  = Ok (sg, clip) ->
  save_sg_status env sg (export_sg_file args) = Ok tt ->
  let s1 :=
    with_fs (write_file (export_sg_file args) (SgFile sg))
      (log (EvSaveSg sg (export_sg_file args))
         (with_fs (write_file (clip_range_file args) (JsonFile clip))
            (log (EvGenSg (set_training false (set_on_cpu (model s)))
                    (clip_range_file args) "graph.log")
               (with_model (set_training false)
                  (with_model set_on_cpu s))))) in
  export_graphs env args s
  = match gen_quant_sg_from_clip_ranges env sg clip qconfig with
    | Ok qsg =>
        save_sg env qsg (export_8bit_file args)
          (log (EvGenQuantSg sg clip qconfig) s1)
    | Raise e => (Raise e, log (EvGenQuantSg sg clip qconfig) s1)
    end.
Proof.
  intros D1 Hgen Hsave1 s1.
  unfold export_graphs, mbind, ST_bind.
  unfold gen_sg, read_json, gen_quant_sg, model_eval.
  unfold save_sg at 1.
  step_monad. cbn [model with_model log fs trace].
  rewrite Hgen. cbn [fst snd]. rewrite Hsave1.
  cbn [fs with_fs log files write_file].
  rewrite lookup_insert_ne by exact D1. rewrite lookup_insert_eq.
  fold s1.
  destruct (gen_quant_sg_from_clip_ranges env sg clip qconfig); reflexivity.
Qed.

(** C6: when deploy is asked for with quantization on, and [arch] is a
    model name (not empty, no [/], no [.sg] inside), the calls into
    rbcompiler going through, the deploy path writes the float graph to
    [<arch>/<arch>.sg] and the clip ranges (JSON) to
    [<arch>/<arch>_act_clip.json], reads the clip ranges back from that
    file, derives the quantized graph from the float graph, those clip
    ranges and the record [qconfig], and writes it to
    [<arch>/<arch>_8bit.sg]. *)
Theorem deploy_exports_graph_and_clip_ranges
    (env : Env) (args : Args) (s : State) (sg qsg : SG) (clip : ClipRanges) :
  quant args = true ->
  deploy args = true ->
  arch args ≠ "" ->
  has_char "/" (arch args) = false ->
  contains ".sg" (arch args) = false ->
  gen_sg_from_pytorch env
    (set_training false
       (set_on_cpu (set_bn_merged (set_training false (model s)))))
  = Ok (sg, clip) ->
  save_sg_status env sg (export_sg_file args) = Ok tt ->
  gen_quant_sg_from_clip_ranges env sg clip qconfig = Ok qsg ->
  save_sg_status env qsg (export_8bit_file args) = Ok tt ->
  let a := arch args in
  let sg_path := (a ++ "/" ++ a ++ ".sg")%string in
  let clip_path := (a ++ "/" ++ a ++ "_act_clip.json")%string in
  let q_path := (a ++ "/" ++ a ++ "_8bit.sg")%string in
  after_quantize env args = deploy_path env args
  ∧ output_dir args = a
  ∧ export_sg_file args = sg_path
  ∧ clip_range_file args = clip_path
  ∧ export_8bit_file args = q_path
  ∧ qconfig = [("quant_ops", [("DepthWiseConv2D", [("per_channel", false)])])]
  ∧ ∃ s', deploy_path env args s = (Ok tt, s')
          ∧ files (fs s') !! sg_path = Some (SgFile sg)
          ∧ files (fs s') !! clip_path = Some (JsonFile clip)
          ∧ files (fs s') !! q_path = Some (SgFile qsg)
          ∧ read_json clip_path s' = (Ok clip, s')
          ∧ trace s'
            = trace s
              ++ [ EvConvertMergeBn (set_training false (model s));
                   EvGenSg
                     (set_training false
                        (set_on_cpu
                           (set_bn_merged (set_training false (model s)))))
                     clip_path "graph.log";
                   EvSaveSg sg sg_path;
                   EvGenQuantSg sg clip qconfig;
                   EvSaveSg qsg q_path ].
Proof.
  intros Hq Hd Hne Hsep Hext Hgen Hsave1 Hquant Hsave2 a sg_path clip_path
    q_path.
  destruct (deploy_paths_distinct args Hne Hsep Hext) as (D1 & D2 & D3).
  pose proof (export_sg_file_eq args Hne Hsep) as E1.
  pose proof (clip_range_file_eq args Hne Hsep) as E2.
  pose proof (export_8bit_file_eq args Hne Hsep Hext) as E3.
  fold a in E1, E2, E3. fold sg_path in E1. fold clip_path in E2.
  fold q_path in E3.
  split_and!; try assumption; try reflexivity.
  { unfold after_quantize. now rewrite Hq, Hd. }
  unfold deploy_path, mbind, ST_bind. rewrite fold_bn_first_event.
  rewrite (export_graphs_first_half env args
             (with_model set_bn_merged
                (log (EvConvertMergeBn (set_training false (model s)))
                   (with_model (set_training false) s)))
             sg clip D1 Hgen Hsave1).
  rewrite Hquant. unfold save_sg, mbind, ST_bind, modify, lift.
  rewrite Hsave2. rewrite E1, E2, E3 in *.
  eexists. split; [reflexivity|].
  cbn [fs with_fs log files write_file model with_model trace].
  split_and!.
  - rewrite lookup_insert_ne by exact D3. apply lookup_insert_eq.
  - rewrite lookup_insert_ne by exact D2.
    rewrite lookup_insert_ne by exact D1. apply lookup_insert_eq.
  - apply lookup_insert_eq.
  - unfold read_json, mbind, ST_bind, get, mret, ST_ret.
    cbn [fs with_fs log files write_file].
    rewrite lookup_insert_ne by exact D2.
    rewrite lookup_insert_ne by exact D1.
    now rewrite lookup_insert_eq.
  - rewrite <- !app_assoc. reflexivity.
Qed.

Lemma deploy_exports_graph_and_clip_ranges_witness :
  let s := state_of fs_empty in
  let clip := [("conv1", (0 # 1, 6 # 1))] in
  let m := set_training false
             (set_on_cpu (set_bn_merged (set_training false (model s)))) in
  after_quantize env_ok args_deploy = deploy_path env_ok args_deploy
  ∧ output_dir args_deploy = "resnet18"
  ∧ export_sg_file args_deploy = "resnet18/resnet18.sg"
  ∧ clip_range_file args_deploy = "resnet18/resnet18_act_clip.json"
  ∧ export_8bit_file args_deploy = "resnet18/resnet18_8bit.sg"
  ∧ qconfig = [("quant_ops", [("DepthWiseConv2D", [("per_channel", false)])])]
  ∧ ∃ s', deploy_path env_ok args_deploy s = (Ok tt, s')
          ∧ files (fs s') !! "resnet18/resnet18.sg" = Some (SgFile 1%Z)
          ∧ files (fs s') !! "resnet18/resnet18_act_clip.json"
            = Some (JsonFile clip)
          ∧ files (fs s') !! "resnet18/resnet18_8bit.sg" = Some (SgFile 2%Z)
          ∧ read_json "resnet18/resnet18_act_clip.json" s' = (Ok clip, s')
          ∧ trace s'
            = trace s
              ++ [ EvConvertMergeBn (set_training false (model s));
                   EvGenSg m "resnet18/resnet18_act_clip.json" "graph.log";
                   EvSaveSg 1%Z "resnet18/resnet18.sg";
                   EvGenQuantSg 1%Z clip qconfig;
                   EvSaveSg 2%Z "resnet18/resnet18_8bit.sg" ].
Proof.
  apply (deploy_exports_graph_and_clip_ranges env_ok args_deploy
           (state_of fs_empty) 1%Z 2%Z [("conv1", (0 # 1, 6 # 1))]).
  - reflexivity.
  - reflexivity.
  - discriminate.
  - reflexivity.
  - reflexivity.
  - reflexivity.
  - reflexivity.
  - reflexivity.
  - reflexivity.
Defined.

(** With an architecture name that contains [.sg], line 328 rewrites the
    directory as well; the command line cannot produce such a name
    ([choices=model_names]). *)
Example replace_touches_directory :
  export_8bit_file
    {| arch := "a.sg"; resume := ""; quant := true; deploy := true;
       evaluate := false; epochs := 0 |}
  = "a_8bit.sg/a_8bit.sg_8bit.sg".
Proof. reflexivity. Qed.

(* ================================================================== *)
(** * A failed export *)

(** The float graph and the clip ranges never share a path. *)
Lemma export_sg_file_not_clip (args : Args) :
  export_sg_file args ≠ clip_range_file args.
Proof.
  unfold export_sg_file, clip_range_file, output_dir, path_join.
  destruct (arch args) as [|c0 a]; [cbn; discriminate|].
  rewrite !append_cons. cbn [startswith].
  destruct (Ascii.eqb "/" c0).
  - intros H. injection H as H. apply append_cancel_l in H. discriminate H.
  - match goal with |- context [if ?b then _ else _] => destruct b end;
      intros H; injection H as H; apply (append_cancel_l a) in H;
      [|apply (append_cancel_l "/") in H];
      injection H as H; apply (append_cancel_l a) in H; discriminate H.
Qed.

Lemma emits_deploy_path_final_paths (env : Env) (args : Args) :
  emits (deploy_path env args) (writes_final_paths args).
Proof. unfold deploy_path. repeat emits_step. Qed.

(** C7 (amended): the deploy path hands the final paths themselves to the
    writers of rbcompiler; there is no temporary path and no renaming
    step.  Whichever export step fails ([gen_sg_from_pytorch], the first
    [save_sg], [gen_quant_sg_from_clip_ranges] or the second [save_sg]),
    its exception reaches the caller, and the files are exactly what the
    steps that completed wrote, at their final paths: nothing is removed
    or renamed.  The read of lines 322-323 finds the clip ranges that
    line 318 wrote.  The statement holds for every run, whatever the
    command line, the state and the outcome of the external calls. *)
Theorem deploy_writes_final_paths_directly
    (env : Env) (args : Args) (s : State) :
  let m := set_training false
             (set_on_cpu (set_bn_merged (set_training false (model s)))) in
  let r := deploy_path env args s in
  let files0 := files (fs s) in
  (∃ evs, trace (snd r) = trace s ++ evs
          ∧ Forall (writes_final_paths args) evs)
  ∧ dirs (fs (snd r)) = dirs (fs s)
  ∧ match gen_sg_from_pytorch env m with
    | Raise e => fst r = Raise e ∧ files (fs (snd r)) = files0
    | Ok (sg, clip) =>
        let files1 := <[clip_range_file args := JsonFile clip]> files0 in
        match save_sg_status env sg (export_sg_file args) with
        | Raise e => fst r = Raise e ∧ files (fs (snd r)) = files1
        | Ok _ =>
            let files2 := <[export_sg_file args := SgFile sg]> files1 in
            match gen_quant_sg_from_clip_ranges env sg clip qconfig with
            | Raise e => fst r = Raise e ∧ files (fs (snd r)) = files2
            | Ok qsg =>
                match save_sg_status env qsg (export_8bit_file args) with
                | Raise e => fst r = Raise e ∧ files (fs (snd r)) = files2
                | Ok _ =>
                    fst r = Ok tt
                    ∧ files (fs (snd r))
                      = <[export_8bit_file args := SgFile qsg]> files2
                end
            end
        end
    end.
Proof.
  intros m r files0. subst r.
  pose proof (export_sg_file_not_clip args) as D1.
  split.
  { apply (triple_emits _ (fun _ => True) (fun _ _ => True));
      [apply emits_deploy_path_final_paths | exact I]. }
  unfold deploy_path, mbind, ST_bind. rewrite fold_bn_first_event.
  unfold export_graphs, mbind, ST_bind.
  unfold gen_sg, read_json, gen_quant_sg, model_eval, save_sg.
  step_monad. cbn [model with_model log fs trace]. fold m.
  destruct (gen_sg_from_pytorch env m) as [[sg clip]|e];
    cbn [fst snd fs with_fs log files write_file dirs with_model];
    [|auto].
  destruct (save_sg_status env sg (export_sg_file args)) as [[]|e];
    cbn [fst snd fs with_fs log files write_file dirs with_model];
    [|auto].
  rewrite lookup_insert_ne by exact D1. rewrite lookup_insert_eq.
  cbn [fst snd fs with_fs log files write_file dirs with_model].
  destruct (gen_quant_sg_from_clip_ranges env sg clip qconfig) as [qsg|e];
    cbn [fst snd fs with_fs log files write_file dirs with_model];
    [|auto].
  destruct (save_sg_status env qsg (export_8bit_file args)) as [[]|e];
    cbn [fst snd fs with_fs log files write_file dirs with_model]; auto.
Qed.

(** C7 as stated fails: when the derivation of the quantized graph raises,
    the run ends with that exception, and the float graph and the clip
    ranges, which were not there before, are left at their final paths
    [resnet18/resnet18.sg] and [resnet18/resnet18_act_clip.json]; the path
    handed to [save_sg] is the final one, not a temporary one. *)
Lemma deploy_failure_leaves_artifacts :
  let s := state_of fs_empty in
  let r := deploy_path env_quant_fails args_deploy s in
  fst r = Raise (ExternalError "MissingCalibrationDataError")
  ∧ files (fs s) !! "resnet18/resnet18.sg" = None
  ∧ files (fs s) !! "resnet18/resnet18_act_clip.json" = None
  ∧ files (fs (snd r)) !! "resnet18/resnet18.sg" = Some (SgFile 1%Z)
  ∧ files (fs (snd r)) !! "resnet18/resnet18_act_clip.json"
    = Some (JsonFile [("conv1", (0 # 1, 6 # 1))])
  ∧ In (EvSaveSg 1%Z "resnet18/resnet18.sg") (trace (snd r))
  ∧ ¬ (∀ (env : Env) (args : Args) (s0 s' : State) (e : exn),
         deploy_path env args s0 = (Raise e, s') ->
         files (fs s') !! export_sg_file args
         = files (fs s0) !! export_sg_file args).
Proof.
  cbv zeta. split_and!; try reflexivity.
  - right. right. left. reflexivity.
  - intros H.
    specialize (H env_quant_fails args_deploy (state_of fs_empty) _ _ eq_refl).
    vm_compute in H. discriminate H.
Qed.

(* ================================================================== *)
(** * A training run *)

(** One epoch from scratch: calibration over two batches, quantization,
    training, validation, and a checkpoint that is the best so far.  The
    checkpoint on disk has no ['cur_acc'] entry and is copied to
    [model_best.pth.tar]. *)
Example one_epoch_run :
  let r := main_worker env_ok args_train (state_of fs_empty) in
  let saved :=
    list_to_map
      [("epoch", PInt 1);
       ("arch", PStr "resnet18");
       ("state_dict", PStateDict [("x", 10%Z); ("fc.weight", 11%Z)]);
       ("best_acc1", PNum (0 + (75 # 1) * inject_Z 4 / inject_Z (0 + 4)));
       ("optimizer", POptimizer 0)] in
  fst r = Ok tt
  ∧ nodes (model (snd r))
    = [ {| mode := quantized; observed := 2 |};
        {| mode := quantized; observed := 2 |} ]
  ∧ files (fs (snd r)) !! "resnet18/resnet18_acc_75.00_epoch_0.pth.tar"
    = Some (TorchFile saved)
  ∧ files (fs (snd r)) !! "resnet18/model_best.pth.tar"
    = Some (TorchFile saved)
  ∧ saved !! "cur_acc" = None.
Proof. cbv zeta. split_and!; reflexivity. Qed.

(* ================================================================== *)
(** * More on the renaming of checkpoint keys *)

Import Runs.

Lemma od_pop_spec (k : string) (d : state_dict) :
  NoDup d.*1 -> k ∈ d.*1 ->
  ∃ v d', od_pop k d = Ok (v, d')
          ∧ List.length d = S (List.length d')
          ∧ NoDup d'.*1
          ∧ (k ∉ d'.*1)
          ∧ (∀ k', k' ∈ d'.*1 ↔ k' ∈ d.*1 ∧ k' ≠ k)
          ∧ v ∈ d.*2
          ∧ d'.*2 ⊆ d.*2.
Proof.
  induction d as [|[k0 v0] d IH]; intros Hnd Hin; [inversion Hin|].
  cbn [fmap list_fmap fst snd] in *.
  apply NoDup_cons in Hnd as [Hk0 Hnd].
  cbn [od_pop]. destruct (String.eqb_spec k k0) as [->|Hne].
  - exists v0, d. split_and!; try done.
    + intros k'. rewrite elem_of_cons. split.
      * intros H. split; [now right|]. intros ->. contradiction.
      * intros [[->|H] Hne]; [contradiction|assumption].
    + left.
    + intros x Hx. now right.
  - apply elem_of_cons in Hin as [?|Hin]; [contradiction|].
    destruct (IH Hnd Hin) as (v & d' & Hpop & Hlen & Hnd' & Hk & Hkeys & Hv & Hvs).
    rewrite Hpop. exists v, ((k0, v0) :: d').
    cbn [fmap list_fmap fst snd length]. split_and!; try done.
    + now rewrite Hlen.
    + apply NoDup_cons. split; [|exact Hnd'].
      intros H. apply Hkeys in H as [H _]. contradiction.
    + rewrite not_elem_of_cons. split; [exact Hne | exact Hk].
    + intros k'. rewrite !elem_of_cons, Hkeys. split.
      * intros [->|[H1 H2]]; [split; [now left|congruence] | split; [now right|exact H2]].
      * intros [[->|H1] H2]; [now left | right; now split].
    + now right.
    + intros x Hx. apply elem_of_cons in Hx as [->|Hx]; [left|right; now apply Hvs].
Qed.

Lemma od_set_spec (k : string) (v : Tensor) (d : state_dict) :
  NoDup d.*1 ->
  NoDup (od_set k v d).*1
  ∧ (List.length (od_set k v d) <= S (List.length d))%nat
  ∧ (∀ k', k' ∈ (od_set k v d).*1 ↔ k' = k ∨ k' ∈ d.*1)
  ∧ (od_set k v d).*2 ⊆ v :: d.*2.
Proof.
  induction d as [|[k0 v0] d IH]; intros Hnd.
  - cbn. split_and!; [apply NoDup_singleton | lia | | done].
    intros k'. rewrite list_elem_of_singleton, elem_of_nil. tauto.
  - cbn [fmap list_fmap fst snd] in *.
    apply NoDup_cons in Hnd as [Hk0 Hnd].
    cbn [od_set]. destruct (String.eqb_spec k k0) as [->|Hne].
    + cbn [fmap list_fmap fst snd length]. split_and!.
      * apply NoDup_cons. now split.
      * lia.
      * intros k'. rewrite !elem_of_cons. tauto.
      * intros x Hx. apply elem_of_cons in Hx as [->|Hx]; [left|].
        right. now right.
    + destruct (IH Hnd) as (Hnd' & Hlen & Hkeys & Hvs).
      cbn [fmap list_fmap fst snd length]. split_and!.
      * apply NoDup_cons. split; [|exact Hnd'].
        intros H. apply Hkeys in H as [->|H]; [congruence|contradiction].
      * lia.
      * intros k'. rewrite !elem_of_cons, Hkeys. tauto.
      * intros x Hx. apply elem_of_cons in Hx as [->|Hx].
        -- right. left.
        -- apply Hvs in Hx. apply elem_of_cons in Hx as [->|Hx];
             [left | right; now right].
Qed.

(** The renaming loop from the middle, for any dictionary: [ks] are the
    keys still to be renamed, [seen] the stripped keys produced so far. *)
Lemma strip_keys_total (ks : list string) :
  ∀ (d : state_dict) (seen : list string),
  NoDup ks -> NoDup d.*1 -> ks ⊆ d.*1 ->
  (∀ k, k ∈ d.*1 -> k ∈ ks ∨ k ∈ seen) ->
  ∃ d', strip_keys ks d = Ok d'
        ∧ NoDup d'.*1
        ∧ (List.length d' <= List.length d)%nat
        ∧ d'.*2 ⊆ d.*2
        ∧ (∀ k, k ∈ d'.*1 -> k ∈ seen ∨ k ∈ (slice_from 7 <$> ks)).
Proof.
  induction ks as [|k ks IH]; intros d seen Hks Hd Hsub Hkeys.
  - exists d. cbn. split_and!; try done.
    intros k Hk. destruct (Hkeys k Hk) as [H|H]; [inversion H | now left].
  - apply NoDup_cons in Hks as [Hk Hks].
    assert (Hin : k ∈ d.*1) by (apply Hsub; left).
    destruct (od_pop_spec k d Hd Hin)
      as (v & d1 & Hpop & Hlen1 & Hnd1 & Hk1 & Hkeys1 & Hv & Hvs1).
    destruct (od_set_spec (slice_from 7 k) v d1 Hnd1)
      as (Hnd2 & Hlen2 & Hkeys2 & Hvs2).
    destruct (IH (od_set (slice_from 7 k) v d1) (slice_from 7 k :: seen))
      as (d' & Hrun & Hnd' & Hlen' & Hvs' & Hkeys'); try assumption.
    { intros k' Hk'. apply Hkeys2. right. apply Hkeys1. split.
      - apply Hsub. now right.
      - intros ->. contradiction. }
    { intros k' Hk'. apply Hkeys2 in Hk' as [->|Hk'].
      - right. left.
      - apply Hkeys1 in Hk' as [Hk' Hne].
        destruct (Hkeys k' Hk') as [H|H].
        + apply elem_of_cons in H as [?|H]; [contradiction | now left].
        + right. now right. }
    exists d'. cbn [strip_keys]. rewrite Hpop.
    split_and!; try assumption.
    + lia.
    + intros x Hx. apply Hvs', Hvs2 in Hx.
      apply elem_of_cons in Hx as [->|Hx]; [exact Hv | now apply Hvs1].
    + intros k' Hk'. destruct (Hkeys' k' Hk') as [H|H].
      * apply elem_of_cons in H as [->|H]; [right; left | now left].
      * right. cbn. now right.
Qed.

(** X1: on a dictionary (keys pairwise distinct) the renaming loop of
    lines 286-287 never raises [KeyError], whatever the keys are.  What
    it leaves is again a dictionary, it is never longer than the
    original, its values are values of the original, and each of its keys
    is an original key without its first seven characters. *)
Theorem strip_keys_never_raises (sd : state_dict) :
  NoDup sd.*1 ->
  ∃ d', strip_keys (List.map fst sd) sd = Ok d'
        ∧ NoDup d'.*1
        ∧ (List.length d' <= List.length sd)%nat
        ∧ d'.*2 ⊆ sd.*2
        ∧ d'.*1 ⊆ (slice_from 7 <$> sd.*1).
Proof.
  intros Hnd.
  destruct (strip_keys_total sd.*1 sd [] Hnd Hnd ltac:(done))
    as (d' & Hrun & Hnd' & Hlen & Hvs & Hkeys).
  { intros k Hk. now left. }
  exists d'. split_and!; try assumption.
  intros k Hk. destruct (Hkeys k Hk) as [H|H]; [inversion H | exact H].
Qed.

Lemma strip_keys_never_raises_witness :
  ∃ d', strip_keys (List.map fst colliding_state_dict) colliding_state_dict
        = Ok d'
        ∧ NoDup d'.*1
        ∧ (List.length d' <= List.length colliding_state_dict)%nat
        ∧ d'.*2 ⊆ colliding_state_dict.*2
        ∧ d'.*1 ⊆ (slice_from 7 <$> colliding_state_dict.*1).
Proof.
  apply (strip_keys_never_raises colliding_state_dict).
  apply (bool_decide_unpack _). vm_compute. exact I.
Defined.

Lemma wrap_prefix_keys (sd : state_dict) :
  slice_from 7 <$> (wrap_prefix sd).*1 = sd.*1.
Proof.
  unfold wrap_prefix. induction sd as [|[k v] sd IH]; [reflexivity|].
  cbn [fmap list_fmap fst snd] in *. now rewrite IH.
Qed.

Lemma wrap_prefix_strip (sd : state_dict) :
  strip_entry <$> wrap_prefix sd = sd.
Proof.
  unfold wrap_prefix. induction sd as [|[k v] sd IH]; [reflexivity|].
  cbn [fmap list_fmap] in *. rewrite IH. reflexivity.
Qed.

Lemma wrap_prefix_clash_free (sd : state_dict) :
  Forall (fun k => startswith "module." k = false) sd.*1 ->
  pending_clash_free (wrap_prefix sd).*1.
Proof.
  unfold wrap_prefix. induction sd as [|[k v] sd IH]; intros H; [exact I|].
  cbn [fmap list_fmap fst snd] in *.
  apply List.Forall_cons_iff in H as [Hk H].
  cbn [pending_clash_free]. split; [|now apply IH].
  change (slice_from 7 ("module." ++ k)%string) with k.
  intros Hin. apply list_elem_of_fmap in Hin as [[k' v'] [-> Hin]].
  apply list_elem_of_fmap in Hin as [[k'' v''] [[= -> ->] _]].
  cbn [fst] in Hk. discriminate Hk.
Qed.

(** X2: stripping undoes the wrapper.  When the keys of a non-empty state
    dict are pairwise distinct and none starts with [module.], and the
    first key of the model's own state dict does not contain [module.],
    lines 285-287 turn the dict with every key prefixed by [module.]
    (what a [DataParallel] wrapper saves) back into the original one,
    entry for entry. *)
Theorem strip_undoes_wrap (sd md : state_dict) (m0 : string) :
  sd ≠ [] ->
  NoDup sd.*1 ->
  Forall (fun k => startswith "module." k = false) sd.*1 ->
  first_key md = Ok m0 ->
  contains "module." m0 = false ->
  needs_strip (wrap_prefix sd) md = Ok true
  ∧ strip_module_prefix (wrap_prefix sd) md = Ok sd.
Proof.
  intros Hne Hnd Hpre Hm Hm0.
  assert (Hn : needs_strip (wrap_prefix sd) md = Ok true).
  { destruct sd as [|[k v] sd]; [congruence|].
    unfold needs_strip, wrap_prefix. cbn [fmap list_fmap first_key fst].
    change (contains "module." ("module." ++ k)%string) with true.
    cbv iota. now rewrite Hm, Hm0. }
  split; [exact Hn|].
  rewrite (strip_module_prefix_safe _ md true Hn).
  - now rewrite wrap_prefix_strip.
  - intros _. split.
    + now rewrite wrap_prefix_keys.
    + now apply wrap_prefix_clash_free.
Qed.

Lemma strip_undoes_wrap_witness :
  needs_strip (wrap_prefix [("x", 1%Z); ("fc.weight", 2%Z)]) (params model0)
  = Ok true
  ∧ strip_module_prefix (wrap_prefix [("x", 1%Z); ("fc.weight", 2%Z)])
      (params model0)
    = Ok [("x", 1%Z); ("fc.weight", 2%Z)].
Proof.
  apply (strip_undoes_wrap [("x", 1%Z); ("fc.weight", 2%Z)] (params model0) "x").
  - discriminate.
  - apply (bool_decide_unpack _). vm_compute. exact I.
  - repeat (apply List.Forall_cons; [reflexivity|]). apply List.Forall_nil.
  - reflexivity.
  - reflexivity.
Defined.

(** X3: the test of line 285 indexes the key lists without looking at
    their length.  A checkpoint whose state dict is empty, or one whose
    first key contains [module.] loaded into a model without parameters,
    makes the resume raise [IndexError]: nothing is loaded into the
    model or the optimizer, but [args.start_epoch] and [best_acc1] have
    already been overwritten from the checkpoint. *)
Theorem resume_empty_state_dict (env : Env) (args : Args) (s : State)
    (ck : gmap string pyval) (e b0 : pyval) (sd : state_dict) :
  files (fs s) !! resume args = Some (TorchFile ck) ->
  ck !! "epoch" = Some e ->
  ck !! "best_acc1" = Some b0 ->
  ck !! "state_dict" = Some (PStateDict sd) ->
  sd = [] ∨ (∃ k0, first_key sd = Ok k0 ∧ contains "module." k0 = true
                   ∧ params (model s) = []) ->
  load_checkpoint env args s
  = (Raise IndexError, set_best_acc1 b0 (set_start_epoch e s)).
Proof.
  intros Hfile He Hb Hsd Hedge.
  assert (Hstrip : strip_module_prefix sd (params (model s)) = Raise IndexError).
  { unfold strip_module_prefix, needs_strip.
    destruct Hedge as [->|(k0 & Hk & Hc & Hp)]; [reflexivity|].
    now rewrite Hk, Hc, Hp. }
  unfold load_checkpoint, torch_load, getitem. step_monad.
  rewrite Hfile, He. cbn. rewrite Hb. cbn. rewrite Hsd. cbn.
  now rewrite Hstrip.
Qed.

Lemma resume_empty_state_dict_witness :
  load_checkpoint env_ok args_resume (state_of (fs_with_checkpoint []))
  = (Raise IndexError,
     set_best_acc1 (PNum (70 # 1))
       (set_start_epoch (PInt 3) (state_of (fs_with_checkpoint [])))).
Proof.
  apply (resume_empty_state_dict env_ok args_resume
           (state_of (fs_with_checkpoint [])) (checkpoint_of [])
           (PInt 3) (PNum (70 # 1)) []).
  - reflexivity.
  - reflexivity.
  - reflexivity.
  - reflexivity.
  - now left.
Defined.

(* ================================================================== *)
(** * What save_checkpoint leaves behind in every case *)

Lemma mkdir_grows (p : string) (f f' : FS) :
  mkdir p f = Ok f' -> f' = add_dir p f.
Proof.
  unfold mkdir. repeat case_match; congruence.
Qed.

Lemma ensure_dir_cases (name : string) (state : gmap string pyval) (f : FS) :
  ∃ r f', ensure_dir name (state, f) = (r, (state, f'))
          ∧ files f' = files f
          ∧ (f' = f ∨ (r = Ok tt ∧ f' = add_dir name f)).
Proof.
  unfold ensure_dir, sc_fs, sc_set_fs. step_monad. cbn [fst snd].
  destruct (isdir name f).
  - exists (Ok tt), f. split_and!; [reflexivity | reflexivity | now left].
  - cbn [fst snd]. destruct (mkdir name f) as [f1|e] eqn:E.
    + apply mkdir_grows in E as ->. exists (Ok tt), (add_dir name f).
      split_and!; [reflexivity | reflexivity | right; now split].
    + exists (Raise e), f. split_and!; [reflexivity | reflexivity | now left].
Qed.

(** Every way [save_checkpoint] can end: it raises before ['cur_acc'] is
    popped, it raises after that but before anything is saved, or it
    returns with the checkpoint written.  [f1] is the file system after
    lines 496-497. *)
Lemma save_checkpoint_outcome (env : Env) (is_best : bool)
    (state : gmap string pyval) (f : FS) :
  let out := save_checkpoint env is_best (state, f) in
  let state' := delete "cur_acc" state in
  ∃ f1, files f1 = files f ∧ dirs f ⊆ dirs f1
    ∧ ((∃ e, out = (Raise e, (state, f1)))
       ∨ (∃ e, out = (Raise e, (state', f1)))
       ∨ (∃ name acc_s ep_s,
            state !! "arch" = Some (PStr name)
            ∧ let filename := path_join name (checkpoint_name name acc_s ep_s) in
              let saved := write_file filename (TorchFile state') f1 in
              out = (Ok tt,
                     (state',
                      if is_best
                      then write_file (path_join name "model_best.pth.tar")
                             (TorchFile state') saved
                      else saved)))).
Proof.
  cbv zeta. unfold save_checkpoint, sc_getitem, sc_pop, sc_getitem.
  step_monad. cbn [fst snd].
  destruct (state !! "arch") as [[z|q|name|d|o]|] eqn:Harch; cbn [fst snd];
    try (exists f; split_and!; [reflexivity | done | left; eexists; reflexivity]).
  destruct (ensure_dir_cases name state f) as (r & f1 & -> & Hfiles & Hf1).
  assert (Hdirs : dirs f ⊆ dirs f1).
  { destruct Hf1 as [->|[_ ->]]; [done|]. unfold add_dir. cbn [dirs].
    set_solver. }
  exists f1. split; [exact Hfiles|]. split; [exact Hdirs|].
  destruct r as [[]|e]; cbn [fst snd]; [|left; eexists; reflexivity].
  destruct (state !! "cur_acc") as [acc|]; cbn [fst snd];
    [|left; eexists; reflexivity].
  destruct (delete "cur_acc" state !! "epoch") as [ep|]; cbn [fst snd];
    [|right; left; eexists; reflexivity].
  unfold lift.
  destruct (minus_one ep) as [ce|e]; cbn [fst snd];
    [|right; left; eexists; reflexivity].
  destruct (fmt_2f env acc) as [acc_s|e]; cbn [fst snd];
    [|right; left; eexists; reflexivity].
  destruct (fmt_num env ce) as [ep_s|e]; cbn [fst snd];
    [|right; left; eexists; reflexivity].
  right. right. exists name, acc_s, ep_s. split; [reflexivity|].
  unfold sc_set_fs, sc_fs. step_monad. cbn [fst snd].
  destruct is_best; [|reflexivity].
  cbn [fst snd]. unfold copyfile.
  destruct (String.eqb_spec
              (path_join name (checkpoint_name name acc_s ep_s))
              (path_join name "model_best.pth.tar")) as [E|_].
  { now apply checkpoint_path_not_best in E. }
  unfold write_file at 1. cbn [files]. now rewrite lookup_insert_eq.
Qed.

(** X4: whatever the state mapping and the file system are, and however
    the call ends, [save_checkpoint] touches no key of the caller's
    mapping other than ['cur_acc'], removes no directory and removes no
    file that was there. *)
Theorem save_checkpoint_only_adds (env : Env) (is_best : bool)
    (state : gmap string pyval) (f : FS) :
  let out := save_checkpoint env is_best (state, f) in
  (∀ k, k ≠ "cur_acc" -> fst (snd out) !! k = state !! k)
  ∧ dirs f ⊆ dirs (snd (snd out))
  ∧ dom (files f) ⊆ dom (files (snd (snd out))).
Proof.
  cbv zeta.
  destruct (save_checkpoint_outcome env is_best state f)
    as (f1 & Hfiles & Hdirs & [[e ->]|[[e ->]|(name & a & ep & _ & ->)]]);
    cbn [fst snd].
  - split_and!; [done | exact Hdirs | now rewrite Hfiles].
  - split_and!; [|exact Hdirs | now rewrite Hfiles].
    intros k Hk. now apply lookup_delete_ne.
  - split_and!.
    + intros k Hk. now apply lookup_delete_ne.
    + destruct is_best; exact Hdirs.
    + destruct is_best; unfold write_file; cbn [files];
        rewrite ?dom_insert_L, Hfiles; set_solver.
Qed.

(** X5: a call that fails on its mapping has already changed it.  With
    the directory of ['arch'] in place and ['cur_acc'] present, a state
    whose ['epoch'] is missing or not a number makes [save_checkpoint]
    raise at line 500 ([KeyError] for the missing key, [TypeError] for
    the subtraction), after line 499 has popped ['cur_acc'] from the
    caller's mapping; no directory is made and no file is written. *)
Theorem save_checkpoint_pops_before_it_fails (env : Env) (is_best : bool)
    (state : gmap string pyval) (f : FS) (name : string) (acc : pyval) :
  state !! "arch" = Some (PStr name) ->
  isdir name f = true ->
  state !! "cur_acc" = Some acc ->
  match state !! "epoch" with
  | None => True
  | Some ep => minus_one ep = Raise TypeError
  end ->
  save_checkpoint env is_best (state, f)
  = (Raise (match state !! "epoch" with
            | None => KeyError "epoch"
            | Some _ => TypeError
            end),
     (delete "cur_acc" state, f)).
Proof.
  intros Harch Hdir Hacc Hep.
  unfold save_checkpoint, sc_getitem, sc_pop, sc_getitem.
  step_monad. cbn [fst snd]. rewrite Harch. cbv beta iota.
  rewrite (ensure_dir_ok name state f) by (rewrite Hdir; reflexivity).
  rewrite Hdir. cbn [fst snd]. rewrite Hacc. cbn [fst snd].
  rewrite lookup_delete_ne by discriminate.
  destruct (state !! "epoch") as [ep|]; [|reflexivity].
  cbn [fst snd]. rewrite Hep. reflexivity.
Qed.

Lemma save_checkpoint_pops_before_it_fails_witness :
  let state := <["epoch" := PStr "3"]> save_state in
  let f := add_dir "resnet18" fs_empty in
  save_checkpoint env_ok true (state, f)
  = (Raise (match state !! "epoch" with
            | None => KeyError "epoch"
            | Some _ => TypeError
            end),
     (delete "cur_acc" state, f)).
Proof.
  apply (save_checkpoint_pops_before_it_fails env_ok true
           (<["epoch" := PStr "3"]> save_state)
           (add_dir "resnet18" fs_empty) "resnet18" (PNum (75 # 1))).
  - reflexivity.
  - reflexivity.
  - reflexivity.
  - reflexivity.
Defined.

(* ================================================================== *)
(** * More on AverageMeter *)

Section MeterOrder.
Context {num : Type}.
Variable zero : num.
Variable add : num -> num -> num.
Variable mul : num -> Z -> num.
Variable div : num -> Z -> num.
Hypothesis add_comm : ∀ x y, add x y = add y x.
Hypothesis add_assoc : ∀ x y z, add x (add y z) = add (add x y) z.

Lemma weighted_sum_perm (calls calls' : list (num * Z)) :
  calls ≡ₚ calls' ->
  ∀ a, fold_left (fun acc c => add acc (mul (fst c) (snd c))) calls a
       = fold_left (fun acc c => add acc (mul (fst c) (snd c))) calls' a.
Proof.
  induction 1 as [|c l l' _ IH|c1 c2 l|l1 l2 l3 _ IH1 _ IH2]; intros a.
  - reflexivity.
  - cbn. apply IH.
  - cbn. f_equal.
    rewrite <- !add_assoc. f_equal. apply add_comm.
  - now rewrite IH1.
Qed.

Lemma total_count_perm (calls calls' : list (num * Z)) :
  calls ≡ₚ calls' ->
  ∀ a, fold_left (fun acc c => (acc + snd c)%Z) calls a
       = fold_left (fun acc c => (acc + snd c)%Z) calls' a.
Proof.
  induction 1 as [|c l l' _ IH|c1 c2 l|l1 l2 l3 _ IH1 _ IH2]; intros a.
  - reflexivity.
  - cbn. apply IH.
  - cbn. f_equal. lia.
  - now rewrite IH1.
Qed.

(** X6: when the addition of the value type is commutative and
    associative, the order of the [update] calls does not matter for
    what the meter reports in the end: two sequences of calls with
    positive [n] that are permutations of one another leave the same
    [count], [sum] and [avg] (only [val], the last value, may differ). *)
Theorem meter_order_irrelevant (calls calls' : list (num * Z)) :
  calls ≡ₚ calls' ->
  Forall (fun c => (0 < snd c)%Z) calls ->
  ∃ m m' : Meter.AverageMeter num,
    Meter.updates add mul div (Meter.reset zero) calls = (Ok tt, m)
    ∧ Meter.updates add mul div (Meter.reset zero) calls' = (Ok tt, m')
    ∧ Meter.count m = Meter.count m'
    ∧ Meter.sum m = Meter.sum m'
    ∧ Meter.avg m = Meter.avg m'.
Proof.
  intros Hperm Hpos.
  assert (Hpos' : Forall (fun c => (0 < snd c)%Z) calls').
  { now rewrite <- Hperm. }
  destruct (updates_positive add mul div calls (Meter.reset zero)
              ltac:(cbn; lia) Hpos)
    as (m & Hrun & Hc & Hs & _ & _ & Hnil & Hcons).
  destruct (updates_positive add mul div calls' (Meter.reset zero)
              ltac:(cbn; lia) Hpos')
    as (m' & Hrun' & Hc' & Hs' & _ & _ & Hnil' & Hcons').
  exists m, m'.
  assert (Ec : Meter.count m = Meter.count m').
  { rewrite Hc, Hc'. now apply total_count_perm. }
  assert (Es : Meter.sum m = Meter.sum m').
  { rewrite Hs, Hs'. now apply weighted_sum_perm. }
  split_and!; try assumption.
  destruct calls as [|c calls].
  - apply Permutation_nil_l in Hperm. subst calls'.
    now rewrite (Hnil eq_refl), (Hnil' eq_refl).
  - destruct (Hcons ltac:(discriminate)) as [Ha _].
    destruct Hcons' as [Ha' _].
    { intros ->. now apply Permutation_nil_r in Hperm. }
    now rewrite Ha, Ha', Ec, Es.
Qed.

End MeterOrder.

Lemma meter_order_irrelevant_witness :
  ∃ m m' : Meter.AverageMeter Z,
    Meter.updates Z.add Z.mul Z.div (Meter.reset 0%Z)
      [(3%Z, 2%Z); (5%Z, 1%Z)] = (Ok tt, m)
    ∧ Meter.updates Z.add Z.mul Z.div (Meter.reset 0%Z)
        [(5%Z, 1%Z); (3%Z, 2%Z)] = (Ok tt, m')
    ∧ Meter.count m = Meter.count m'
    ∧ Meter.sum m = Meter.sum m'
    ∧ Meter.avg m = Meter.avg m'.
Proof.
  apply (meter_order_irrelevant 0%Z Z.add Z.mul Z.div).
  - intros x y. lia.
  - intros x y z. lia.
  - apply perm_swap.
  - repeat (apply List.Forall_cons; [reflexivity|]). apply List.Forall_nil.
Defined.

Section MeterEmptyBatch.
Context {num : Type}.
Variable zero : num.
Variable add : num -> num -> num.
Variable mul : num -> Z -> num.
Variable div : num -> Z -> num.

Lemma validate_loop_app (l1 l2 : list (Meter.batch_result num)) :
  ∀ m : Meter.val_meters num,
  Meter.validate_loop add mul div m (l1 ++ l2)
  = match Meter.validate_loop add mul div m l1 with
    | (Ok _, m') => Meter.validate_loop add mul div m' l2
    | (Raise e, m') => (Raise e, m')
    end.
Proof.
  induction l1 as [|b l1 IH]; intros m; [reflexivity|].
  cbn [app Meter.validate_loop].
  destruct (Meter.validate_step add mul div m b) as [[[]|e] m'];
    [apply IH | reflexivity].
Qed.

(** The loop stops at an empty batch, if there is one. *)
Lemma validate_loop_stops (batches : list (Meter.batch_result num)) :
  ∀ m : Meter.val_meters num,
  (0 <= Meter.count (Meter.losses m))%Z ->
  (0 <= Meter.count (Meter.top1 m))%Z ->
  (0 <= Meter.count (Meter.top5 m))%Z ->
  Forall (fun b => (0 <= Meter.b_size b)%Z) batches ->
  Exists (fun b => Meter.b_size b = 0%Z) batches ->
  ∃ m', Meter.validate_loop add mul div m batches
        = (Raise ZeroDivisionError, m').
Proof.
  induction batches as [|b rest IH]; intros m Hl H1 H5 Hsz Hex.
  - inversion Hex.
  - apply Forall_cons in Hsz as [Hn Hrest].
    cbn [Meter.validate_loop]. unfold Meter.validate_step.
    destruct (Z.eqb_spec (Meter.b_size b) 0) as [E|Hne];
      [eexists; reflexivity|].
    apply Exists_cons in Hex as [E|Hex]; [contradiction|].
    assert (Hpos : (0 < Meter.b_size b)%Z) by lia.
    destruct (update_positive add mul div (Meter.losses m)
                (Meter.b_loss b) _ Hl Hpos) as (l' & El & _ & _ & Cl & _).
    destruct (update_positive add mul div (Meter.top1 m)
                (Meter.b_acc1 b) _ H1 Hpos) as (t1 & E1 & _ & _ & C1 & _).
    destruct (update_positive add mul div (Meter.top5 m)
                (Meter.b_acc5 b) _ H5 Hpos) as (t5 & E5 & _ & _ & C5 & _).
    rewrite El, E1, E5.
    apply IH; cbn [Meter.losses Meter.top1 Meter.top5]; try lia; assumption.
Qed.

(** X7: the loop of [validate] (forward passes and display taken as not
    failing), on batches none of which has a negative size, raises
    [ZeroDivisionError] exactly when some batch is empty.  It stops at
    the first empty batch, wherever it comes: [accuracy] (line 477)
    divides by the batch size before any meter is updated, so the meters
    are left as the batches before had them. *)
Theorem validate_raises_iff_some_batch_empty
    (batches : list (Meter.batch_result num)) :
  Forall (fun b => (0 <= Meter.b_size b)%Z) batches ->
  let fresh :=
    {| Meter.losses := Meter.reset zero; Meter.top1 := Meter.reset zero;
       Meter.top5 := Meter.reset zero |} in
  (Exists (fun b => Meter.b_size b = 0%Z) batches ->
   Meter.validate_meters zero add mul div batches = Raise ZeroDivisionError)
  ∧ (Forall (fun b => Meter.b_size b ≠ 0%Z) batches ->
     ∃ a, Meter.validate_meters zero add mul div batches = Ok a)
  ∧ (∀ before b after m,
       batches = before ++ b :: after ->
       Meter.b_size b = 0%Z ->
       Meter.validate_loop add mul div fresh before = (Ok tt, m) ->
       Meter.validate_loop add mul div fresh batches
       = (Raise ZeroDivisionError, m)).
Proof.
  intros Hsz fresh. split_and!.
  - intros Hex. unfold Meter.validate_meters. fold fresh.
    destruct (validate_loop_stops batches fresh) as (m' & ->);
      cbn; try lia; try assumption. reflexivity.
  - intros Hne. unfold Meter.validate_meters. fold fresh.
    destruct (validate_loop_positive add mul div batches fresh)
      as (m' & -> & _); cbn; try lia.
    + rewrite Forall_forall in Hsz, Hne. apply Forall_forall.
      intros b Hb. specialize (Hsz b Hb). specialize (Hne b Hb). lia.
    + eexists. reflexivity.
  - intros before b after m -> E Hbefore.
    rewrite validate_loop_app, Hbefore.
    cbn [Meter.validate_loop]. unfold Meter.validate_step.
    now rewrite E.
Qed.

End MeterEmptyBatch.

Lemma validate_raises_iff_some_batch_empty_witness :
  let b0 := {| Meter.b_loss := 0%Q; Meter.b_acc1 := 0%Q;
               Meter.b_acc5 := 0%Q; Meter.b_size := 0 |} in
  let batches := one_batch ++ [b0] in
  let fresh :=
    {| Meter.losses := Meter.reset 0%Q; Meter.top1 := Meter.reset 0%Q;
       Meter.top5 := Meter.reset 0%Q |} in
  (Exists (fun b => Meter.b_size b = 0%Z) batches ->
   Meter.validate_meters 0%Q Qplus q_mul q_div batches
   = Raise ZeroDivisionError)
  ∧ (Forall (fun b => Meter.b_size b ≠ 0%Z) batches ->
     ∃ a, Meter.validate_meters 0%Q Qplus q_mul q_div batches = Ok a)
  ∧ (∀ before b after m,
       batches = before ++ b :: after ->
       Meter.b_size b = 0%Z ->
       Meter.validate_loop Qplus q_mul q_div fresh before = (Ok tt, m) ->
       Meter.validate_loop Qplus q_mul q_div fresh batches
       = (Raise ZeroDivisionError, m)).
Proof.
  apply (validate_raises_iff_some_batch_empty 0%Q Qplus q_mul q_div).
  repeat (apply List.Forall_cons; [discriminate|]). apply List.Forall_nil.
Defined.

(** The running sum stays between the bounds of the values, each taken
    [count] times. *)
Lemma weighted_sum_bounds (lo hi : Q) (calls : list (Q * Z)) :
  ∀ (a : Q) (c : Z),
  Forall (fun x => (lo <= fst x)%Q /\ (fst x <= hi)%Q /\ (0 < snd x)%Z) calls ->
  (lo * inject_Z c <= a)%Q -> (a <= hi * inject_Z c)%Q ->
  (lo * inject_Z (fold_left (fun acc x => (acc + snd x)%Z) calls c)
   <= fold_left (fun acc x => acc + q_mul (fst x) (snd x)) calls a)%Q
  /\ (fold_left (fun acc x => acc + q_mul (fst x) (snd x)) calls a
      <= hi * inject_Z (fold_left (fun acc x => (acc + snd x)%Z) calls c))%Q.
Proof.
  induction calls as [|[v n] calls IH]; intros a c Hall Hlo Hhi.
  - now split.
  - apply List.Forall_cons_iff in Hall as [(Hv1 & Hv2 & Hn) Hall].
    cbn [fst snd] in *. cbn [fold_left fst snd].
    assert (Hn' : (0 < inject_Z n)%Q).
    { change 0%Q with (inject_Z 0). now rewrite <- Zlt_Qlt. }
    apply IH; [exact Hall | |]; unfold q_mul; rewrite inject_Z_plus; nra.
Qed.

(** X8: with exact rational arithmetic, the [top1.avg] that the meter
    updates of [validate] end with, the value of line 492, lies between
    any two bounds that hold for the top-1 accuracy of every batch
    (batches of positive size, at least one): it is a proper weighted
    mean, so accuracies in [0, 100] average to a value in [0, 100]. *)
Theorem validate_accuracy_within_batch_range (lo hi : Q)
    (batches : list (Meter.batch_result Q)) :
  batches ≠ [] ->
  Forall (fun b => (lo <= Meter.b_acc1 b)%Q /\ (Meter.b_acc1 b <= hi)%Q
                   /\ (0 < Meter.b_size b)%Z) batches ->
  ∃ a, Meter.validate_meters 0%Q Qplus q_mul q_div batches = Ok a
       ∧ (lo <= a)%Q ∧ (a <= hi)%Q.
Proof.
  intros Hne Hall.
  assert (Hsz : Forall (fun b => (0 < Meter.b_size b)%Z) batches).
  { eapply List.Forall_impl; [|exact Hall]. intros b H. apply H. }
  destruct (validate_loop_positive Qplus q_mul q_div batches
              {| Meter.losses := Meter.reset 0%Q;
                 Meter.top1 := Meter.reset 0%Q;
                 Meter.top5 := Meter.reset 0%Q |})
    as (m' & Hloop & Hups);
    cbn [Meter.losses Meter.top1 Meter.top5 Meter.reset Meter.count];
    try lia; try assumption.
  cbn [Meter.top1] in Hups.
  assert (Hcalls : Forall (fun x => (lo <= fst x)%Q /\ (fst x <= hi)%Q
                                    /\ (0 < snd x)%Z)
                     (Meter.top1_calls batches)).
  { unfold Meter.top1_calls. apply List.Forall_map.
    eapply List.Forall_impl; [|exact Hall]. intros b H. exact H. }
  assert (Hpos : Forall (fun c => (0 < snd c)%Z) (Meter.top1_calls batches)).
  { eapply List.Forall_impl; [|exact Hcalls]. intros x H. apply H. }
  destruct (updates_positive Qplus q_mul q_div (Meter.top1_calls batches)
              (Meter.reset 0%Q) ltac:(cbn; lia) Hpos)
    as (m & Hrun & Hc & Hs & _ & _ & _ & Hcons).
  rewrite Hrun in Hups. injection Hups as Hm.
  destruct Hcons as [Havg Hcount].
  { destruct batches; [congruence | discriminate]. }
  destruct (weighted_sum_bounds lo hi (Meter.top1_calls batches) 0%Q 0%Z Hcalls)
    as [Hlo Hhi]; [change (inject_Z 0) with 0%Q; lra ..|].
  cbn [Meter.reset Meter.sum Meter.count] in Hs, Hc.
  rewrite <- Hs, <- Hc in Hlo, Hhi.
  assert (Hcq : (0 < inject_Z (Meter.count m))%Q).
  { change 0%Q with (inject_Z 0). now rewrite <- Zlt_Qlt. }
  exists (Meter.avg m). unfold Meter.validate_meters.
  rewrite Hloop, <- Hm. split; [reflexivity|].
  rewrite Havg. unfold q_div. split.
  - now apply Qle_shift_div_l.
  - now apply Qle_shift_div_r.
Qed.

Lemma validate_accuracy_within_batch_range_witness :
  ∃ a, Meter.validate_meters 0%Q Qplus q_mul q_div one_batch = Ok a
       ∧ (0 <= a)%Q ∧ (a <= 100 # 1)%Q.
Proof.
  apply (validate_accuracy_within_batch_range 0%Q (100 # 1) one_batch).
  - discriminate.
  - repeat (apply List.Forall_cons;
              [split_and!; [discriminate | discriminate | reflexivity]|]).
    apply List.Forall_nil.
Defined.

(* ================================================================== *)
(** * The calibration pass *)

Lemma for_each_forward (batches : list Z) : ∀ s : State,
  for_each batches forward s
  = (Ok tt,
     {| model := set_nodes
                   (Nat.iter (List.length batches) (List.map observe)
                      (nodes (model s)))
                   (model s);
        fs := fs s; start_epoch := start_epoch s; best_acc1 := best_acc1 s;
        optimizer := optimizer s;
        trace := trace s ++ (EvForward <$> batches) |}).
Proof.
  induction batches as [|b batches IH]; intros [[t ns p bn cpu ep] f se ba o tr].
  - cbn. now rewrite app_nil_r.
  - cbn [for_each]. unfold mbind, ST_bind.
    change (forward b _) with
      (Ok tt,
       {| model := {| training := t; nodes := List.map observe ns; params := p;
                      bn_merged := bn; on_cpu := cpu; epochs_trained := ep |};
          fs := f; start_epoch := se; best_acc1 := ba; optimizer := o;
          trace := tr ++ [EvForward b] |}).
    cbv beta iota. rewrite IH.
    cbn [model nodes set_nodes fs start_epoch best_acc1 optimizer
                     trace training params bn_merged on_cpu epochs_trained
                     List.length fmap list_fmap].
    rewrite <- app_assoc. cbn [app].
    now rewrite Nat.iter_succ_r.
Qed.



(* ================================================================== *)
(** * Invariants that survive exceptions *)

Section Preserves.
Variable inv : State -> Prop.

Lemma preserves_ret {A} (a : A) : preserves inv (mret a).
Proof. intros s Hs. exact Hs. Qed.

Lemma preserves_raise {A} (e : exn) : preserves inv (raise (A := A) e).
Proof. intros s Hs. exact Hs. Qed.

Lemma preserves_lift {A} (r : result A) : preserves inv (lift r).
Proof. intros s Hs. exact Hs. Qed.

Lemma preserves_bind {A B} (c : M A) (k : A -> M B) :
  preserves inv c -> (∀ a, preserves inv (k a)) -> preserves inv (c ≫= k).
Proof.
  intros Hc Hk s Hs. specialize (Hc s Hs). unfold mbind, ST_bind.
  destruct (c s) as [[a|e] s1]; cbn [snd] in *; [now apply Hk | exact Hc].
Qed.

Lemma preserves_get {B} (k : State -> M B) :
  (∀ s, inv s -> preserves inv (k s)) -> preserves inv (get ≫= k).
Proof. intros H s Hs. unfold mbind, ST_bind, get. exact (H s Hs s Hs). Qed.

Lemma preserves_modify (f : State -> State) :
  (∀ s, inv s -> inv (f s)) -> preserves inv (modify f).
Proof. intros H s Hs. now apply H. Qed.

Lemma preserves_for_each {X} (xs : list X) (body : X -> M unit) :
  (∀ x, preserves inv (body x)) -> preserves inv (for_each xs body).
Proof.
  intros H. induction xs as [|x xs IH]; cbn [for_each].
  - apply preserves_ret.
  - apply preserves_bind; [apply H | intros _; exact IH].
Qed.

End Preserves.

(** Decomposes a [preserves] goal along the structure of the code; the
    state updates that leave the invariant alone by computation are
    discharged. *)
Ltac preserves_step :=
  lazymatch goal with
  | |- preserves _ (mret _) => apply preserves_ret
  | |- preserves _ (raise _) => apply preserves_raise
  | |- preserves _ (lift _) => apply preserves_lift
  | |- preserves _ (get ≫= _) => apply preserves_get; intros ? ?
  | |- preserves _ (modify _) =>
      apply preserves_modify; intros ? ?; assumption
  | |- preserves _ (for_each _ _) => apply preserves_for_each; intros ?
  | |- preserves _ (_ ≫= _) => apply preserves_bind; [|intros ?]
  | |- preserves _ (match ?x with _ => _ end) => destruct x
  | |- preserves _ ((fun _ => _) _) => cbv beta
  | |- preserves _ _ => progress autounfold with driver
  end.

Section FilesUntouched.
Variable env : Env.
Variable args : Args.
Variable f0 : FS.

Local Abbreviation same_fs := (fun s : State => fs s = f0).

Lemma meter_step_same_state (m : Meter.val_meters Q)
    (b : Meter.batch_result Q) (s : State) :
  snd (meter_step m b s) = s.
Proof.
  unfold meter_step.
  now destruct (Meter.validate_step _ _ _ m b) as [[[]|e] m'].
Qed.

Lemma validate_batches_same_fs (bs : list (Meter.batch_result Q)) :
  ∀ i m, preserves same_fs (validate_batches i bs m).
Proof.
  induction bs as [|b bs IH]; intros i m; cbn [validate_batches].
  - apply preserves_ret.
  - apply preserves_bind; [repeat preserves_step|]. intros _.
    apply preserves_bind; [|intros m'; apply IH].
    intros s Hs. now rewrite meter_step_same_state.
Qed.

Lemma validate_same_fs : preserves same_fs (validate env).
Proof.
  unfold validate.
  apply preserves_bind; [repeat preserves_step|]. intros _.
  apply preserves_get. intros s Hs.
  apply preserves_bind; [repeat preserves_step|]. intros _.
  apply preserves_bind; [apply validate_batches_same_fs|]. intros m.
  apply preserves_ret.
Qed.

Lemma resume_or_calibrate_same_fs :
  preserves same_fs (resume_or_calibrate env args).
Proof. unfold resume_or_calibrate. repeat preserves_step. Qed.

Lemma evaluate_path_same_fs : preserves same_fs (evaluate_path env args).
Proof.
  unfold evaluate_path.
  apply preserves_bind; [repeat preserves_step|]. intros _.
  apply preserves_bind; [apply validate_same_fs|]. intros q.
  apply preserves_ret.
Qed.

End FilesUntouched.

(** X10: a run with [--evaluate] that is not a deploy run never writes to
    the file system, whether it ends normally or with an exception:
    resuming, calibrating, quantizing, folding batch norm and validating
    leave every file and directory as it was. *)
Theorem evaluate_run_writes_nothing (env : Env) (args : Args) (s : State) :
  evaluate args = true ->
  (quant args && deploy args)%bool = false ->
  fs (snd (main_worker env args s)) = fs s.
Proof.
  intros He Hd.
  assert (H : preserves (fun s' => fs s' = fs s) (main_worker env args)).
  { unfold main_worker.
    apply preserves_bind; [apply resume_or_calibrate_same_fs|]. intros _.
    apply preserves_bind; [repeat preserves_step|]. intros _.
    unfold after_quantize. rewrite Hd, He.
    apply evaluate_path_same_fs. }
  now apply H.
Qed.

Lemma evaluate_run_writes_nothing_witness :
  fs (snd (main_worker env_ok args_resume
             (state_of (fs_with_checkpoint wrapped_state_dict))))
  = fs (state_of (fs_with_checkpoint wrapped_state_dict)).
Proof.
  apply (evaluate_run_writes_nothing env_ok args_resume); reflexivity.
Defined.

(* ================================================================== *)
(** * Which runs train *)

Lemma emits_fold_bn (P : event -> Prop) :
  (∀ m, P (EvConvertMergeBn m)) -> emits fold_bn P.
Proof.
  intros HP. unfold fold_bn, model_eval, convert_merge_bn.
  apply emits_bind; [apply emits_modify; reflexivity|]. intros _.
  apply emits_get. intros s.
  apply emits_bind; [apply emits_log, HP|]. intros _.
  apply emits_modify. reflexivity.
Qed.

(** X11: a deploy run (with quantization on) and an evaluate run never
    train and never save a checkpoint: [main_worker] returns before the
    epoch loop, so no call of [train] or [save_checkpoint] is made,
    however the run ends. *)
Theorem deploy_and_evaluate_runs_do_not_train
    (env : Env) (args : Args) (s : State) :
  (quant args && deploy args || evaluate args)%bool = true ->
  ∃ evs, trace (snd (main_worker env args s)) = trace s ++ evs
         ∧ Forall outside_training evs
         ∧ trained_epochs evs = []
         ∧ saved_checkpoints evs = [].
Proof.
  intros Hmode.
  assert (Hemits : emits (main_worker env args) outside_training).
  { unfold main_worker.
    apply emits_bind; [unfold resume_or_calibrate; emits_auto|]. intros _.
    apply emits_bind; [unfold quantize; emits_auto|]. intros _.
    unfold after_quantize.
    destruct (quant args && deploy args)%bool.
    - unfold deploy_path.
      apply emits_bind; [apply emits_fold_bn; intros; exact I|]. intros _.
      unfold export_graphs. emits_auto.
    - cbn [orb] in Hmode. rewrite Hmode. unfold evaluate_path.
      apply emits_bind.
      + destruct (quant args);
          [apply emits_fold_bn; intros; exact I | apply emits_ret].
      + intros _. apply emits_bind; [|intros q; apply emits_ret].
        apply emits_validate; intros; exact I. }
  destruct (triple_emits outside_training _ _ _ s Hemits I) as (evs & Ht & HP).
  exists evs. split_and!; [exact Ht | exact HP | |].
  - clear Ht. induction HP as [|e evs He _ IH]; [reflexivity|].
    destruct e; cbn in He |- *; try contradiction; exact IH.
  - clear Ht. induction HP as [|e evs He _ IH]; [reflexivity|].
    destruct e; cbn in He |- *; try contradiction; exact IH.
Qed.

Lemma deploy_and_evaluate_runs_do_not_train_witness :
  ∃ evs, trace (snd (main_worker env_ok args_deploy (state_of fs_empty)))
         = trace (state_of fs_empty) ++ evs
         ∧ Forall outside_training evs
         ∧ trained_epochs evs = []
         ∧ saved_checkpoints evs = [].
Proof.
  apply (deploy_and_evaluate_runs_do_not_train env_ok args_deploy).
  reflexivity.
Defined.

(* ================================================================== *)
(** * The best accuracy over a training run *)

Section ModelOnly.
Variable inv : State -> Prop.
Hypothesis inv_model : ∀ f s, inv s -> inv (with_model f s).
Hypothesis inv_log : ∀ e s, inv s -> inv (log e s).

Lemma preserves_forward (b : Z) : preserves inv (forward b).
Proof.
  unfold forward. apply preserves_bind; [|intros _];
    apply preserves_modify; auto.
Qed.

Lemma preserves_validate_batches (bs : list (Meter.batch_result Q)) :
  ∀ i m, preserves inv (validate_batches i bs m).
Proof.
  induction bs as [|b bs IH]; intros i m; cbn [validate_batches].
  - apply preserves_ret.
  - apply preserves_bind; [apply preserves_forward|]. intros _.
    apply preserves_bind; [|intros m'; apply IH].
    intros s Hs. now rewrite meter_step_same_state.
Qed.

Lemma preserves_validate (env : Env) : preserves inv (validate env).
Proof.
  unfold validate, model_eval.
  apply preserves_bind; [apply preserves_modify; auto|]. intros _.
  apply preserves_get. intros s Hs.
  apply preserves_bind; [apply preserves_modify; auto|]. intros _.
  apply preserves_bind; [apply preserves_validate_batches|]. intros m.
  apply preserves_ret.
Qed.

Lemma preserves_train (env : Env) (epoch : Z) : preserves inv (train env epoch).
Proof.
  unfold train, model_train.
  apply preserves_bind; [apply preserves_modify; auto|]. intros _.
  apply preserves_bind; [apply preserves_modify; auto|]. intros _.
  apply preserves_bind;
    [apply preserves_for_each; intros b; apply preserves_forward|].
  intros _. apply preserves_modify; auto.
Qed.

End ModelOnly.

Lemma q_gt_false (a b : Q) : q_gt a b = false -> (a <= b)%Q.
Proof.
  unfold q_gt. intros H. apply negb_false_iff in H.
  now apply Qle_bool_iff.
Qed.

(** The end of an epoch, lines 352-362, sets [best_acc1] to a number that
    is neither below the old one nor below the accuracy measured. *)
Lemma record_best (env : Env) (args : Args) (epoch : Z) (acc1 b0 : Q) :
  let tail : M unit :=
    s ← get;
    best ← lift (as_number (best_acc1 s));
    let is_best := q_gt acc1 best in
    let best' := if q_gt best acc1 then best_acc1 s else PNum acc1 in
    modify (set_best_acc1 best') ;;
    s ← get;
    modify (log (EvSaveCheckpoint (arch args) is_best)) ;;
    call_save_checkpoint env
      (list_to_map
         [("epoch", PInt (epoch + 1));
          ("arch", PStr (arch args));
          ("state_dict", PStateDict (params (model s)));
          ("cur_acc", PNum acc1);
          ("best_acc1", best');
          ("optimizer", POptimizer (optimizer s))])
      is_best in
  preserves
    (fun s => ∃ q, as_number (best_acc1 s) = Ok q ∧ (b0 <= q)%Q) tail.
Proof.
  cbv zeta. intros s (q & Hq & Hle).
  unfold mbind, ST_bind, get, lift, modify. rewrite Hq. cbv beta iota.
  unfold call_save_checkpoint.
  match goal with
  | |- context [save_checkpoint env ?b ?x] =>
      destruct (save_checkpoint env b x) as [r [d' f']]
  end.
  cbn [snd best_acc1 with_fs log set_best_acc1].
  destruct (q_gt q acc1) eqn:E.
  - exists q. now split.
  - exists acc1. split; [reflexivity|].
    apply q_gt_false in E. now apply Qle_trans with q.
Qed.

(** X12: over the epoch loop the best accuracy never goes down.  If
    [best_acc1] is a number when the loop starts, it is a number at
    least as large when the loop ends, whether the loop completes or an
    exception stops it. *)
Theorem best_accuracy_never_decreases
    (env : Env) (args : Args) (s : State) (b0 : Q) :
  as_number (best_acc1 s) = Ok b0 ->
  ∃ q, as_number (best_acc1 (snd (train_loop env args s))) = Ok q
       ∧ (b0 <= q)%Q.
Proof.
  intros Hb.
  set (inv := fun s' : State =>
                ∃ q, as_number (best_acc1 s') = Ok q ∧ (b0 <= q)%Q).
  assert (H : preserves inv (train_loop env args)).
  { unfold train_loop. apply preserves_get. intros s0 _.
    apply preserves_bind; [apply preserves_lift|]. intros es.
    apply preserves_for_each. intros epoch. unfold epoch_body.
    apply preserves_bind; [apply preserves_train; auto|]. intros _.
    apply preserves_bind; [apply preserves_validate; auto|]. intros acc1.
    apply (record_best env args epoch acc1 b0). }
  apply H. exists b0. split; [exact Hb | apply Qle_refl].
Qed.

Lemma best_accuracy_never_decreases_witness :
  ∃ q, as_number
         (best_acc1 (snd (train_loop env_ok args_train (state_of fs_empty))))
       = Ok q
       ∧ (0 <= q)%Q.
Proof.
  apply (best_accuracy_never_decreases env_ok args_train (state_of fs_empty) 0%Q).
  reflexivity.
Defined.

(* ================================================================== *)
(** * The epochs of a training run *)

Lemma trained_epochs_app (l1 l2 : list event) :
  trained_epochs (l1 ++ l2) = trained_epochs l1 ++ trained_epochs l2.
Proof.
  induction l1 as [|e l1 IH]; [reflexivity|].
  destruct e; cbn; rewrite ?IH; reflexivity.
Qed.

Lemma saved_checkpoints_app (l1 l2 : list event) :
  saved_checkpoints (l1 ++ l2) = saved_checkpoints l1 ++ saved_checkpoints l2.
Proof.
  induction l1 as [|e l1 IH]; [reflexivity|].
  destruct e; cbn; rewrite ?IH; reflexivity.
Qed.

Lemma trained_epochs_none (evs : list event) :
  Forall (fun e => trained_epochs [e] = []) evs -> trained_epochs evs = [].
Proof.
  induction 1 as [|e evs He _ IH]; [reflexivity|].
  change (e :: evs) with ([e] ++ evs). now rewrite trained_epochs_app, He.
Qed.

Lemma saved_checkpoints_none (evs : list event) :
  Forall (fun e => saved_checkpoints [e] = []) evs -> saved_checkpoints evs = [].
Proof.
  induction 1 as [|e evs He _ IH]; [reflexivity|].
  change (e :: evs) with ([e] ++ evs). now rewrite saved_checkpoints_app, He.
Qed.

(** [train] never raises; it records the epoch and one forward pass per
    batch of the training loader. *)
Lemma train_trace (env : Env) (epoch : Z) (s : State) :
  fst (train env epoch s) = Ok tt
  ∧ trace (snd (train env epoch s))
    = trace s ++ EvTrain epoch :: (EvForward <$> train_loader env).
Proof.
  unfold train, model_train. unfold mbind, ST_bind, modify.
  rewrite for_each_forward. cbn [fst snd trace with_model log].
  split; [reflexivity|]. now rewrite <- app_assoc.
Qed.

(** What follows [train] in an epoch adds no training epoch, and exactly
    one saved checkpoint when it returns normally. *)
Lemma epoch_tail_trace (env : Env) (args : Args) (epoch : Z) (s : State) :
  let tail : M unit :=
    acc1 ← validate env;
    s ← get;
    best ← lift (as_number (best_acc1 s));
    let is_best := q_gt acc1 best in
    let best' := if q_gt best acc1 then best_acc1 s else PNum acc1 in
    modify (set_best_acc1 best') ;;
    s ← get;
    modify (log (EvSaveCheckpoint (arch args) is_best)) ;;
    call_save_checkpoint env
      (list_to_map
         [("epoch", PInt (epoch + 1));
          ("arch", PStr (arch args));
          ("state_dict", PStateDict (params (model s)));
          ("cur_acc", PNum acc1);
          ("best_acc1", best');
          ("optimizer", POptimizer (optimizer s))])
      is_best in
  ∃ evs, trace (snd (tail s)) = trace s ++ evs
         ∧ trained_epochs evs = []
         ∧ (fst (tail s) = Ok tt -> ∃ b, saved_checkpoints evs = [b]).
Proof.
  cbv zeta.
  assert (Hval : emits (validate env)
                   (fun e => trained_epochs [e] = []
                             ∧ saved_checkpoints [e] = [])).
  { apply emits_validate; intros; split; reflexivity. }
  destruct (triple_emits _ _ _ _ s Hval I) as (evs & Ht & HP).
  assert (Htr : trained_epochs evs = []).
  { apply trained_epochs_none. eapply List.Forall_impl; [|exact HP].
    intros e H. apply H. }
  assert (Hsv : saved_checkpoints evs = []).
  { apply saved_checkpoints_none. eapply List.Forall_impl; [|exact HP].
    intros e H. apply H. }
  unfold mbind, ST_bind, get, lift, modify.
  destruct (validate env s) as [[acc1|e] s1]; cbn [snd] in Ht.
  - destruct (as_number (best_acc1 s1)) as [best|e]; cbv beta iota.
    + unfold call_save_checkpoint.
      match goal with
      | |- context [save_checkpoint env ?b ?x] =>
          destruct (save_checkpoint env b x) as [r [d' f']]
      end.
      cbn [fst snd trace with_fs log set_best_acc1].
      eexists. rewrite Ht, <- app_assoc. split; [reflexivity|].
      rewrite trained_epochs_app, saved_checkpoints_app, Htr, Hsv.
      split; [reflexivity|]. intros _. eexists. reflexivity.
    + exists evs. cbn [fst snd]. split_and!; [exact Ht | exact Htr | discriminate].
  - exists evs. cbn [fst snd]. split_and!; [exact Ht | exact Htr | discriminate].
Qed.

Lemma epoch_body_trace (env : Env) (args : Args) (epoch : Z) (s : State) :
  ∃ evs, trace (snd (epoch_body env args epoch s)) = trace s ++ evs
         ∧ trained_epochs evs = [epoch]
         ∧ (fst (epoch_body env args epoch s) = Ok tt ->
            ∃ b, saved_checkpoints evs = [b]).
Proof.
  destruct (train_trace env epoch s) as [Hok Htr].
  unfold epoch_body. unfold mbind, ST_bind.
  destruct (train env epoch s) as [[[]|e] s1]; cbn [fst snd] in *;
    [|discriminate].
  destruct (epoch_tail_trace env args epoch s1) as (evs & Ht & He & Hs).
  cbv zeta in Ht, Hs.
  exists (EvTrain epoch :: (EvForward <$> train_loader env) ++ evs).
  split_and!.
  - refine (eq_trans Ht _). rewrite Htr, <- app_assoc. reflexivity.
  - change (EvTrain epoch :: (EvForward <$> train_loader env) ++ evs)
      with ([EvTrain epoch] ++ (EvForward <$> train_loader env) ++ evs).
    rewrite !trained_epochs_app, He.
    rewrite (trained_epochs_none (EvForward <$> train_loader env)).
    + reflexivity.
    + apply Forall_fmap, List.Forall_forall. reflexivity.
  - intros Hret. destruct (Hs Hret) as [b Hb]. exists b.
    change (EvTrain epoch :: (EvForward <$> train_loader env) ++ evs)
      with ([EvTrain epoch] ++ (EvForward <$> train_loader env) ++ evs).
    rewrite !saved_checkpoints_app, Hb.
    rewrite (saved_checkpoints_none (EvForward <$> train_loader env)).
    + reflexivity.
    + apply Forall_fmap, List.Forall_forall. reflexivity.
Qed.

Lemma epoch_loop_trace (env : Env) (args : Args) (es : list Z) : ∀ s : State,
  ∃ evs done,
    trace (snd (for_each es (epoch_body env args) s)) = trace s ++ evs
    ∧ trained_epochs evs = done
    ∧ done `prefix_of` es
    ∧ (fst (for_each es (epoch_body env args) s) = Ok tt ->
       done = es ∧ List.length (saved_checkpoints evs) = List.length es).
Proof.
  induction es as [|e es IH]; intros s.
  - exists [], []. cbn. rewrite app_nil_r. split_and!; try done.
  - destruct (epoch_body_trace env args e s) as (evs1 & Ht1 & He1 & Hs1).
    cbn [for_each]. unfold mbind, ST_bind.
    destruct (epoch_body env args e s) as [[[]|err] s1]; cbn [fst snd] in *.
    + destruct (IH s1) as (evs2 & done & Ht2 & He2 & Hpre & Hok).
      exists (evs1 ++ evs2), (e :: done).
      rewrite Ht2, Ht1, <- app_assoc.
      rewrite trained_epochs_app, saved_checkpoints_app, He1, He2.
      split_and!; try reflexivity.
      * now apply prefix_cons.
      * intros Hret. destruct (Hok Hret) as [-> Hlen].
        destruct (Hs1 eq_refl) as [b ->]. split; [reflexivity|].
        rewrite length_app, Hlen. reflexivity.
    + exists evs1, [e]. split_and!; try done.
      apply prefix_cons, prefix_nil.
Qed.

(** X13: the epoch loop trains the epochs of [range(args.start_epoch,
    args.epochs)] in increasing order, each at most once.  A loop that
    returns normally has trained every one of them and called
    [save_checkpoint] once per epoch; a loop stopped by an exception has
    trained an initial part of the range; and when [start_epoch] is not
    below [epochs] nothing happens at all. *)
Theorem train_loop_epochs (env : Env) (args : Args) (s : State) (a : Z) :
  start_epoch s = PInt a ->
  let es := seqZ a (epochs args - a) in
  let out := train_loop env args s in
  (∃ evs, trace (snd out) = trace s ++ evs
          ∧ trained_epochs evs `prefix_of` es
          ∧ (fst out = Ok tt ->
             trained_epochs evs = es
             ∧ List.length (saved_checkpoints evs) = List.length es))
  ∧ ((epochs args <= a)%Z -> out = (Ok tt, s)).
Proof.
  intros Hstart es out.
  assert (Heq : out = for_each es (epoch_body env args) s).
  { subst out. unfold train_loop, mbind, ST_bind, get, lift, epoch_range.
    cbn [fst snd]. rewrite Hstart. reflexivity. }
  rewrite Heq. clear out Heq. split.
  - destruct (epoch_loop_trace env args es s)
      as (evs & done & Ht & He & Hpre & Hok).
    subst done. exists evs.
    split_and!; [exact Ht | exact Hpre | exact Hok].
  - intros Hle. subst es. rewrite seqZ_nil by lia. reflexivity.
Qed.

Lemma train_loop_epochs_witness :
  let s := state_of fs_empty in
  let es := seqZ 0 (epochs args_train - 0) in
  let out := train_loop env_ok args_train s in
  (∃ evs, trace (snd out) = trace s ++ evs
          ∧ trained_epochs evs `prefix_of` es
          ∧ (fst out = Ok tt ->
             trained_epochs evs = es
             ∧ List.length (saved_checkpoints evs) = List.length es))
  ∧ ((epochs args_train <= 0)%Z -> out = (Ok tt, s)).
Proof.
  apply (train_loop_epochs env_ok args_train (state_of fs_empty) 0).
  reflexivity.
Defined.

(* ================================================================== *)
(** * The ranks of the workers *)

Lemma backend_choices_mapped (name : string) :
  name ∈ Launch.backend_choices -> is_Some (Launch.BackendMap !! name).
Proof.
  unfold Launch.backend_choices. intros H.
  repeat (apply elem_of_cons in H as [->|H]; [vm_compute; eauto|]).
  now apply elem_of_nil in H.
Qed.

Lemma groups_of_workers {A} (f : A -> Launch.Args)
    (g : A -> Launch.ProcessGroup) (l : list A) :
  Launch.groups ((fun i => Ok (f i, Some (g i))) <$> l) = g <$> l.
Proof.
  induction l as [|a l IH]; [reflexivity|].
  cbn. unfold Launch.groups in IH. now rewrite IH.
Qed.

(** The workers of a node started with [--multiprocessing-distributed]. *)
Lemma main_multiprocessing (environ : gmap string string)
    (int : string -> result Z) (n : nat) (W r : Z) (args : Launch.Args) :
  Launch.node_ok environ int W args r ->
  ∃ ws, Launch.main environ int n args = Ok ws
        ∧ Launch.groups ws
          = (fun i => {| Launch.pg_backend := Launch.dist_backend args;
                         Launch.pg_init_method := Launch.dist_url args;
                         Launch.pg_world_size := Z.of_nat n * W;
                         Launch.pg_rank := r * Z.of_nat n + i |})
              <$> seqZ 0 (Z.of_nat n).
Proof.
  intros (Hmp & (name & Hb & Hin) & Hw & Hr & _).
  destruct (backend_choices_mapped name Hin) as [b Hmap].
  unfold Launch.main. rewrite Hb, Hmap, Hw.
  unfold mbind, PyResult.result_bind. rewrite Hmp.
  eexists. split; [reflexivity|].
  unfold Launch.main_worker. cbn [Launch.distributed orb].
  rewrite orb_true_r.
  unfold Launch.node_rank in *.
  cbn [Launch.dist_url Launch.rank Launch.multiprocessing_distributed
       Launch.dist_backend Launch.world_size].
  rewrite Hr. unfold mbind, PyResult.result_bind.
  apply (groups_of_workers _ _ (seqZ 0 (Z.of_nat n))).
Qed.

(** X14: two nodes of a cluster of [W] nodes, each started with
    [--multiprocessing-distributed] on [n] GPUs.  Neither [main] raises;
    each starts [n] workers, every one of which joins a process group of
    world size [n * W] with a global rank in [0 .. n*W - 1]; the ranks
    on a node are pairwise distinct, and nodes of different node ranks
    share no global rank. *)
Theorem global_ranks_distinct_and_in_range
    (env1 env2 : gmap string string) (int : string -> result Z) (n : nat)
    (W r1 r2 : Z) (args1 args2 : Launch.Args) :
  Launch.node_ok env1 int W args1 r1 ->
  Launch.node_ok env2 int W args2 r2 ->
  ∃ ws1 ws2,
    Launch.main env1 int n args1 = Ok ws1
    ∧ Launch.main env2 int n args2 = Ok ws2
    ∧ List.length (Launch.groups ws1) = n
    ∧ Forall (fun g => Launch.pg_world_size g = (Z.of_nat n * W)%Z
                       ∧ (0 <= Launch.pg_rank g < Launch.pg_world_size g)%Z)
             (Launch.groups ws1)
    ∧ NoDup (Launch.pg_rank <$> Launch.groups ws1)
    ∧ (r1 ≠ r2 ->
       ∀ g1 g2, g1 ∈ Launch.groups ws1 -> g2 ∈ Launch.groups ws2 ->
                Launch.pg_rank g1 ≠ Launch.pg_rank g2).
Proof.
  intros H1 H2.
  destruct (main_multiprocessing env1 int n W r1 args1 H1) as (ws1 & E1 & G1).
  destruct (main_multiprocessing env2 int n W r2 args2 H2) as (ws2 & E2 & G2).
  destruct H1 as (_ & _ & _ & _ & Hr1). destruct H2 as (_ & _ & _ & _ & Hr2).
  exists ws1, ws2. rewrite G1, G2. split_and!; try assumption.
  - rewrite length_fmap, length_seqZ. lia.
  - apply Forall_fmap, Forall_forall. intros i Hi.
    apply elem_of_seqZ in Hi.
    cbn. split; [reflexivity|].
    assert (r1 * Z.of_nat n + Z.of_nat n <= Z.of_nat n * W)%Z by nia. lia.
  - rewrite <- list_fmap_compose. apply NoDup_fmap_2_strong.
    + intros i j _ _ E. cbn in E. lia.
    + apply NoDup_seqZ.
  - intros Hne g1 g2 Hg1 Hg2 E.
    apply list_elem_of_fmap in Hg1 as (i & -> & Hi).
    apply list_elem_of_fmap in Hg2 as (j & -> & Hj).
    apply elem_of_seqZ in Hi, Hj. cbn [Launch.pg_rank] in E.
    assert (r1 < r2 \/ r2 < r1)%Z as [Hlt|Hlt] by lia.
    + assert (r1 * Z.of_nat n + Z.of_nat n <= r2 * Z.of_nat n)%Z by nia. lia.
    + assert (r2 * Z.of_nat n + Z.of_nat n <= r1 * Z.of_nat n)%Z by nia. lia.
Qed.

Lemma global_ranks_distinct_and_in_range_witness :
  ∃ ws1 ws2,
    Launch.main ∅ LaunchSamples.no_int 2 (LaunchSamples.node_args 0) = Ok ws1
    ∧ Launch.main ∅ LaunchSamples.no_int 2 (LaunchSamples.node_args 1) = Ok ws2
    ∧ List.length (Launch.groups ws1) = 2
    ∧ Forall (fun g => Launch.pg_world_size g = (Z.of_nat 2 * 2)%Z
                       ∧ (0 <= Launch.pg_rank g < Launch.pg_world_size g)%Z)
             (Launch.groups ws1)
    ∧ NoDup (Launch.pg_rank <$> Launch.groups ws1)
    ∧ (0%Z ≠ 1%Z ->
       ∀ g1 g2, g1 ∈ Launch.groups ws1 -> g2 ∈ Launch.groups ws2 ->
                Launch.pg_rank g1 ≠ Launch.pg_rank g2).
Proof.
  apply (global_ranks_distinct_and_in_range ∅ ∅ LaunchSamples.no_int 2 2 0 1
           (LaunchSamples.node_args 0) (LaunchSamples.node_args 1)).
  - split_and!; [reflexivity | | reflexivity | reflexivity | lia | lia].
    exists "tensorrt". split; [reflexivity|].
    apply (bool_decide_unpack _). vm_compute. exact I.
  - split_and!; [reflexivity | | reflexivity | reflexivity | lia | lia].
    exists "tensorrt". split; [reflexivity|].
    apply (bool_decide_unpack _). vm_compute. exact I.
Defined.

(* ================================================================== *)
(** * The accuracies of a batch *)

Section AccuracyFacts.

Lemma zip_with_fmap_replicate {A B C D} (f : B -> C -> D) (g : A -> B)
    (c : C) (l : list A) :
  zip_with f (g <$> l) (replicate (List.length l) c) = (fun a => f (g a) c) <$> l.
Proof.
  induction l as [|a l IH]; [reflexivity|]. cbn. now rewrite IH.
Qed.

Lemma trues_app (m1 m2 : list (list bool)) :
  Accuracy.trues (m1 ++ m2) = Accuracy.trues m1 + Accuracy.trues m2.
Proof.
  unfold Accuracy.trues. now rewrite concat_app, List.filter_app, length_app.
Qed.

Lemma trues_nil {A} (l : list A) : Accuracy.trues ((fun _ => []) <$> l) = 0.
Proof. induction l as [|a l IH]; [reflexivity|]. exact IH. Qed.

Lemma trues_cons {A} (h : A -> bool) (r : A -> list bool) (l : list A) :
  Accuracy.trues ((fun i => h i :: r i) <$> l)
  = List.length (List.filter id (h <$> l)) + Accuracy.trues (r <$> l).
Proof.
  unfold Accuracy.trues. induction l as [|a l IH]; [reflexivity|].
  cbn [fmap list_fmap concat app List.filter]. cbn [fmap list_fmap] in IH.
  change (id (h a)) with (h a).
  destruct (h a); cbn [List.length]; rewrite !List.filter_app, !length_app;
    lia.
Qed.

Lemma nth_seq_take (row : list Z) : forall j,
  j <= List.length row ->
  (fun i => nth i row 0%Z) <$> seq 0 j = take j row.
Proof.
  induction row as [|x row IH]; intros j Hj.
  - cbn in Hj. replace j with 0 by lia. reflexivity.
  - destruct j as [|j]; [reflexivity|].
    cbn [seq]. rewrite <- fmap_S_seq. cbn [fmap list_fmap take nth].
    rewrite <- list_fmap_compose. f_equal. apply IH. cbn in Hj. lia.
Qed.

Lemma hit_absent (t : Z) (l : list Z) :
  t ∉ l -> List.filter id ((fun x => x =? t)%Z <$> l) = [].
Proof.
  induction l as [|x l IH]; intros Hn; [reflexivity|].
  apply not_elem_of_cons in Hn as [Hne Hn]. cbn.
  destruct (Z.eqb_spec x t); [congruence|]. now apply IH.
Qed.

Lemma hit_once (t : Z) (l : list Z) :
  NoDup l -> List.length (List.filter id ((fun x => x =? t)%Z <$> l)) <= 1.
Proof.
  induction 1 as [|x l Hx Hl IH]; [cbn; lia|]. cbn.
  destruct (Z.eqb_spec x t) as [->|Hne]; [|exact IH].
  cbn. rewrite (hit_absent t l Hx). cbn. lia.
Qed.

(** At most one of the distinct predictions of a sample is its target. *)
Lemma trues_hits_bound (j : nat) (pred : list (list Z)) : forall target,
  Forall (fun row => j <= List.length row ∧ NoDup row) pred ->
  Accuracy.trues (Accuracy.hits pred target <$> seq 0 j) <= List.length pred.
Proof.
  induction pred as [|row pred IH]; intros target Hp.
  - unfold Accuracy.hits. cbn. rewrite (trues_nil (seq 0 j)). lia.
  - apply Forall_cons in Hp as [[Hlen Hnd] Hp].
    destruct target as [|t ts].
    + unfold Accuracy.hits. cbn. rewrite (trues_nil (seq 0 j)). lia.
    + unfold Accuracy.hits. cbn [fmap list_fmap zip_with].
      rewrite (trues_cons (fun i => (nth i row 0 =? t)%Z)
                 (fun i => zip_with Z.eqb
                             ((fun row => nth i row 0%Z) <$> pred) ts)).
      specialize (IH ts Hp). unfold Accuracy.hits in IH.
      rewrite (list_fmap_compose (fun i => nth i row 0%Z)
                 (fun x => (x =? t)%Z)).
      rewrite (nth_seq_take row j Hlen).
      assert (Hnd' : NoDup (take j row)).
      { rewrite <- (take_drop j row) in Hnd.
        now apply NoDup_app in Hnd as [Hnd _]. }
      pose proof (hit_once t _ Hnd'). cbn [List.length]. 
      unfold compose in *. lia.
Qed.

Lemma trues_hits_mono (pred : list (list Z)) (target : list Z) (j j' : nat) :
  j <= j' ->
  Accuracy.trues (Accuracy.hits pred target <$> seq 0 j) <= Accuracy.trues (Accuracy.hits pred target <$> seq 0 j').
Proof.
  intros Hj. replace j' with (j + (j' - j)) by lia.
  rewrite seq_app, fmap_app, trues_app. lia.
Qed.

Lemma slice_to_seq {A} (f : nat -> A) (k : Z) (m : nat) :
  Accuracy.slice_to k (f <$> seq 0 m) = f <$> seq 0 (Accuracy.kept k m).
Proof.
  unfold Accuracy.slice_to, Accuracy.kept. rewrite length_fmap, length_seq.
  destruct (k <? 0)%Z; rewrite <- fmap_take, take_seq; do 2 f_equal; lia.
Qed.

Lemma accuracy_loop_ok (correct : list (list bool)) (B : Z) (ks : list Z) :
  B ≠ 0%Z ->
  Accuracy.accuracy_loop correct B ks
  = Ok ((fun k => (inject_Z (Accuracy.sum_true (Accuracy.slice_to k correct))
                   * (100 / inject_Z B))%Q) <$> ks).
Proof.
  intros HB. induction ks as [|k ks IH]; [reflexivity|].
  cbn [Accuracy.accuracy_loop]. destruct (Z.eqb_spec B 0); [contradiction|].
  rewrite IH. reflexivity.
Qed.

Lemma scaled_mono (c c' B : Z) :
  (0 < B)%Z -> (c <= c')%Z ->
  (inject_Z c * (100 / inject_Z B) <= inject_Z c' * (100 / inject_Z B))%Q.
Proof.
  intros HB Hc. apply Qmult_le_compat_r.
  - now rewrite <- Zle_Qle.
  - apply Qle_shift_div_l.
    + change 0%Q with (inject_Z 0). now rewrite <- Zlt_Qlt.
    + rewrite Qmult_0_l. discriminate.
Qed.

Lemma scaled_full (B : Z) :
  (0 < B)%Z -> (inject_Z B * (100 / inject_Z B) == 100)%Q.
Proof.
  intros HB. apply Qmult_div_r. intros E.
  unfold Qeq in E. cbn in E. lia.
Qed.

End AccuracyFacts.

Lemma correct_rows (m : nat) (pred : list (list Z)) (target : list Z) :
  Accuracy.eq (Accuracy.t m pred) (replicate m target)
  = Accuracy.hits pred target <$> seq 0 m.
Proof.
  unfold Accuracy.eq, Accuracy.t.
  replace (replicate m target)
    with (replicate (List.length (seq 0 m)) target)
    by now rewrite length_seq.
  apply (zip_with_fmap_replicate (zip_with Z.eqb)
           (fun i => (fun row => nth i row 0%Z) <$> pred) target (seq 0 m)).
Qed.

Lemma kept_le (k : Z) (m : nat) : Accuracy.kept k m <= m.
Proof. unfold Accuracy.kept. destruct (k <? 0)%Z; lia. Qed.

Lemma kept_mono (k k' : Z) (m : nat) :
  (0 <= k <= k')%Z -> Accuracy.kept k m <= Accuracy.kept k' m.
Proof.
  intros Hk. unfold Accuracy.kept.
  destruct (Z.ltb_spec k 0), (Z.ltb_spec k' 0); lia.
Qed.

(** X15: a batch that is not empty, for which [topk] gives every sample
    [maxk] pairwise distinct class indices.  Then [accuracy] returns one
    value for each [k] asked for, every value lies between 0 and 100,
    and a larger [k] never gives a smaller value: the top-5 accuracy is
    at least the top-1 accuracy. *)
Theorem accuracy_bounded_and_monotone {Output : Type}
    (tensor_topk : Output -> Z -> result (list (list Z)))
    (output : Output) (target : list Z) (topk : list Z)
    (maxk : Z) (pred : list (list Z)) :
  Accuracy.py_max topk = Ok maxk ->
  tensor_topk output maxk = Ok pred ->
  List.length pred = List.length target ->
  target ≠ [] ->
  Forall (fun row => List.length row = Z.to_nat maxk ∧ NoDup row) pred ->
  ∃ res,
    Accuracy.accuracy tensor_topk output target topk = Ok res
    ∧ List.length res = List.length topk
    ∧ Forall (fun a => (0 <= a <= 100)%Q) res
    ∧ (∀ i j ki kj ai aj,
         topk !! i = Some ki -> topk !! j = Some kj ->
         res !! i = Some ai -> res !! j = Some aj ->
         (0 <= ki <= kj)%Z -> (ai <= aj)%Q).
Proof.
  intros Hmax Htop Hlen Hne Hrows.
  assert (HB : (0 < Z.of_nat (List.length target))%Z).
  { destruct target; [contradiction|]. cbn [List.length]. lia. }
  unfold Accuracy.accuracy. rewrite Hmax.
  unfold mbind, PyResult.result_bind. rewrite Htop.
  unfold Accuracy.expand_as. rewrite decide_True by (symmetry; exact Hlen).
  rewrite correct_rows, accuracy_loop_ok by lia.
  set (m := Z.to_nat maxk).
  set (B := Z.of_nat (List.length target)) in *.
  assert (Hcount : ∀ k,
            Accuracy.sum_true
              (Accuracy.slice_to k (Accuracy.hits pred target <$> seq 0 m))
            = Z.of_nat (Accuracy.trues
                          (Accuracy.hits pred target
                             <$> seq 0 (Accuracy.kept k m)))).
  { intros k. now rewrite slice_to_seq. }
  assert (Hbound : ∀ k,
            (Z.of_nat (Accuracy.trues
                         (Accuracy.hits pred target
                            <$> seq 0 (Accuracy.kept k m))) <= B)%Z).
  { intros k. subst B. rewrite <- Hlen. apply Nat2Z.inj_le.
    apply trues_hits_bound. eapply Forall_impl; [exact Hrows|].
    intros row [Hr Hnd]. split; [|exact Hnd].
    rewrite Hr. apply kept_le. }
  eexists. split; [reflexivity|]. split_and!.
  - apply length_fmap.
  - apply Forall_fmap, Forall_forall. intros k _. cbn. rewrite Hcount.
    split.
    + eapply Qle_trans; [|apply (scaled_mono 0 _ B HB); lia].
      rewrite Qmult_0_l. apply Qle_refl.
    + eapply Qle_trans; [apply (scaled_mono _ B B HB), Hbound|].
      rewrite (scaled_full B HB). apply Qle_refl.
  - intros i j ki kj ai aj Hi Hj Hai Haj Hk.
    rewrite list_lookup_fmap, Hi in Hai. rewrite list_lookup_fmap, Hj in Haj.
    cbn in Hai, Haj. injection Hai as Hai. injection Haj as Haj.
    rewrite <- Hai, <- Haj, !Hcount.
    apply (scaled_mono _ _ B HB), Nat2Z.inj_le, trues_hits_mono.
    now apply kept_mono.
Qed.

Lemma accuracy_bounded_and_monotone_witness :
  ∃ res,
    Accuracy.accuracy Accuracy.ranked_topk Accuracy.sample_output
      Accuracy.sample_target [1; 5]%Z = Ok res
    ∧ List.length res = List.length [1; 5]%Z
    ∧ Forall (fun a => (0 <= a <= 100)%Q) res
    ∧ (∀ i j ki kj ai aj,
         [1; 5]%Z !! i = Some ki -> [1; 5]%Z !! j = Some kj ->
         res !! i = Some ai -> res !! j = Some aj ->
         (0 <= ki <= kj)%Z -> (ai <= aj)%Q).
Proof.
  apply (accuracy_bounded_and_monotone Accuracy.ranked_topk
           Accuracy.sample_output Accuracy.sample_target [1; 5]%Z 5%Z
           (Accuracy.sample_output)).
  - reflexivity.
  - reflexivity.
  - reflexivity.
  - discriminate.
  - repeat (apply Forall_cons; split;
            [split; [reflexivity|];
             apply (bool_decide_unpack _); vm_compute; exact I|]).
    apply Forall_nil. exact I.
Defined.

(* ================================================================== *)
(** * The learning-rate schedule *)

Lemma tenth_power (k : Z) :
  (0 <= k)%Z -> ((1 # 10) ^ k * inject_Z (10 ^ k) == 1)%Q.
Proof.
  revert k. apply natlike_ind; [reflexivity|].
  intros k Hk IH. unfold Z.succ.
  rewrite Qpower_plus by discriminate.
  rewrite Z.pow_add_r, inject_Z_mult by lia.
  change ((1 # 10) ^ 1)%Q with (1 # 10)%Q.
  change (inject_Z (10 ^ 1)) with (inject_Z 10).
  transitivity (((1 # 10) ^ k * inject_Z (10 ^ k)) * ((1 # 10) * inject_Z 10))%Q;
    [ring|].
  rewrite IH. reflexivity.
Qed.

(** X16: [adjust_learning_rate] gives every parameter group the same
    learning rate and touches no other entry.  In exact arithmetic the
    rate is [args.lr] divided by [10 ^ k] during the epochs [5k .. 5k+4]:
    it drops by a factor of ten every 5 epochs. *)
Theorem learning_rate_step_is_five_epochs
    (gs : list Schedule.param_group) (lr : Q) (epoch k : Z) :
  (0 <= k)%Z -> (5 * k <= epoch < 5 * k + 5)%Z ->
  let gs' := Schedule.adjust_learning_rate gs epoch lr in
  List.length gs' = List.length gs
  ∧ Forall (fun g => ∃ v, g !! "lr" = Some (PNum v)
                          ∧ (v * inject_Z (10 ^ k) == lr)%Q) gs'
  ∧ (∀ i g g' key, gs !! i = Some g -> gs' !! i = Some g' ->
                   key ≠ "lr" -> g' !! key = g !! key).
Proof.
  intros Hk He gs'. subst gs'. unfold Schedule.adjust_learning_rate.
  assert (Hdiv : (epoch / 5 = k)%Z).
  { symmetry. apply (Z.div_unique epoch 5 k (epoch - 5 * k)); lia. }
  split_and!.
  - apply length_fmap.
  - apply Forall_fmap, Forall_forall. intros g _. cbn.
    eexists. split; [apply lookup_insert_eq|].
    unfold Schedule.decayed_lr. rewrite Hdiv, <- Qmult_assoc.
    rewrite (tenth_power k Hk). apply Qmult_1_r.
  - intros i g g' key Hg Hg' Hkey.
    rewrite list_lookup_fmap, Hg in Hg'. cbn in Hg'.
    injection Hg' as <-. now apply lookup_insert_ne.
Qed.

Lemma learning_rate_step_is_five_epochs_witness :
  let gs' := Schedule.adjust_learning_rate Schedule.sample_groups 7 (1 # 10) in
  List.length gs' = List.length Schedule.sample_groups
  ∧ Forall (fun g => ∃ v, g !! "lr" = Some (PNum v)
                          ∧ (v * inject_Z (10 ^ 1) == 1 # 10)%Q) gs'
  ∧ (∀ i g g' key, Schedule.sample_groups !! i = Some g ->
                   gs' !! i = Some g' ->
                   key ≠ "lr" -> g' !! key = g !! key).
Proof.
  apply (learning_rate_step_is_five_epochs Schedule.sample_groups (1 # 10) 7 1);
    lia.
Defined.
